(** * logkit: a shallow embedding of packages [fctx] and [logger]

    The two Go packages are embedded as Rocq functions over explicit
    state.  Package-level variables become fields of a state record, a
    function that reads or writes them becomes a computation in a small
    state monad, and a Go panic becomes the [Panic] outcome of that
    computation. *)

From stdpp Require Import base gmap strings list pretty.

Local Open Scope Z_scope.

(** ** Outcomes of running Go code *)

(** A call either returns normally with a value or panics with a
    message. *)
Inductive Result (A : Type) : Type :=
| Ok (a : A)
| Panic (msg : string).
Arguments Ok {A} a.
Arguments Panic {A} msg.

(** What a stateful call returns, the final state left out. *)
Definition returned {A S} (r : Result (A * S)) : Result A :=
  match r with Ok (a, _) => Ok a | Panic msg => Panic msg end.

(** ** Go values of interface type *)

(** An [error] value is identified with the text its [Error()] method
    gives. *)
Record error := mkError { Error : string }.

(** One activation record of the call stack.  A frame of the host
    program carries what go-stack prints for it; a frame of package
    [logger] is named by its function and the line of the pending call;
    a frame of go-kit's [log] package is named by its function. *)
Inductive Frame :=
| HostFrame (file_line func : string)
| PkgFrame (func : string) (line : Z)
| KitFrame (func : string).

(** What a deferred value ([log.Valuer]) can observe when the record is
    emitted: the call stack of its caller, innermost frame first, and the
    wall clock. *)
Record Env := mkEnv { stack : list Frame; now : Z }.

(** The values that travel as [interface{}]: context values, keyvals of a
    log record.  [VValuer] is a [log.Valuer], a [func() interface{}]
    evaluated when a record is emitted. *)
Inductive value :=
| VNil
| VString (s : string)
| VInt (n : Z)
| VBool (b : bool)
| VError (e : error)
| VLevel (name : string)
| VTime (t : Z)
| VValuer (f : Env → value).

Global Instance value_inhabited : Inhabited value := populate VNil.

(** The name the runtime gives the dynamic type of a value. *)
Definition dynamic_type (v : value) : string :=
  match v with
  | VNil => "nil"
  | VString _ => "string"
  | VInt _ => "int"
  | VBool _ => "bool"
  | VError _ => "*errors.errorString"
  | VLevel _ => "*level.levelValue"
  | VTime _ => "log.timestampFormat"
  | VValuer _ => "log.Valuer"
  end.

(** ** Package context (standard library) *)

Module context.

(** Keys are compared with [==]; the only keys the registry makes are
    pairs of two integers, every other key is of another type. *)
Inductive Key :=
| KeyCtx (svcKey reqKey : Z)
| KeyOther (name : string).

Global Instance Key_eq_dec : EqDecision Key.
Proof. solve_decision. Defined.

(** The non-nil contexts of the standard library: the empty root, a
    value binding over a parent, and the cancellation wrappers, which
    delegate [Value] to their parent. *)
Inductive ctxt :=
| Background
| WithValue (parent : ctxt) (key : Key) (val : value)
| WithCancel (parent : ctxt).

(** A [context.Context] interface value; [None] is the nil interface. *)
Definition Context := option ctxt.

Fixpoint ctxt_Value (c : ctxt) (key : Key) : value :=
  match c with
  | Background => VNil
  | WithValue parent k val =>
      if decide (k = key) then val else ctxt_Value parent key
  | WithCancel parent => ctxt_Value parent key
  end.

(** [ctx.Value(key)]; a method call on the nil interface panics. *)
Definition Value (ctx : Context) (key : Key) : Result value :=
  match ctx with
  | None => Panic "runtime error: invalid memory address or nil pointer dereference"
  | Some c => Ok (ctxt_Value c key)
  end.

(** Is every value bound to a registry key a string?  This is what the
    host program owes the registry. *)
Fixpoint stores_strings (c : ctxt) : bool :=
  match c with
  | Background => true
  | WithValue parent (KeyCtx _ _) (VString _) => stores_strings parent
  | WithValue parent (KeyCtx _ _) _ => false
  | WithValue parent (KeyOther _) _ => stores_strings parent
  | WithCancel parent => stores_strings parent
  end.

End context.

(** ** Package fctx *)

Module fctx.
Import context.

Abbreviation ReqKey := Z (only parsing).
Definition ReqUnset : ReqKey := 0.
Definition ReqEndpoint : ReqKey := 1.
Definition ReqAuth : ReqKey := 2.

Abbreviation SvcKey := Z (only parsing).
Definition SvcUnset : SvcKey := 0.

Record CtxKey := mkCtxKey { CtxKey_SvcKey : SvcKey; CtxKey_ReqKey : ReqKey }.

(** A [CtxKey] used as a context key. *)
Definition as_key (k : CtxKey) : Key :=
  KeyCtx (CtxKey_SvcKey k) (CtxKey_ReqKey k).

(** The package variables [svc] and [once]; [once] records whether the
    [sync.Once] has fired. *)
Record State := mkState { svc : SvcKey; once : bool }.

(** The state of a freshly loaded program: both variables hold their
    zero value. *)
Definition st0 : State := {| svc := 0; once := false |}.

Definition M (A : Type) : Type := State → Result (A * State).

Global Instance M_ret : MRet M := λ A a st, Ok (a, st).
Global Instance M_bind : MBind M := λ A B k m st,
  match m st with
  | Ok (a, st') => k a st'
  | Panic msg => Panic msg
  end.
Definition panic {A} (msg : string) : M A := λ _, Panic msg.
Definition lift {A} (r : Result A) : M A :=
  λ st, match r with Ok a => Ok (a, st) | Panic msg => Panic msg end.
Definition get_svc : M SvcKey := λ st, Ok (svc st, st).
Definition set_svc (k : SvcKey) : M unit :=
  λ st, Ok (tt, {| svc := k; once := once st |}).

Definition serviceNameToSvcKey : gmap string SvcKey := ∅.

(** [once.Do(f)]: runs [f] unless the guard has fired, and fires it. *)
Definition once_Do (f : M unit) : M unit :=
  λ st, if once st then Ok (tt, st)
        else match f st with
             | Ok (_, st') => Ok (tt, {| svc := svc st'; once := true |})
             | Panic msg => Panic msg
             end.

Definition Init (service : string) : M unit :=
  match serviceNameToSvcKey !! service with
  | Some svcKey => once_Do (set_svc svcKey)
  | None => once_Do (set_svc SvcUnset)
  end.

Definition NewContextKey (reqKey : ReqKey) : M CtxKey :=
  s ← get_svc; mret {| CtxKey_SvcKey := s; CtxKey_ReqKey := reqKey |}.

Definition selectedTags : gmap string ReqKey := {[ "endpoint" := ReqEndpoint ]}.

(** One iteration of the loop of [MetricsTagsFromContext]. *)
Definition tag_step (ctx : Context) (tags : list string)
    (entry : string * ReqKey) : M (list string) :=
  let tags := tags ++ [entry.1] in
  s ← get_svc;
  if bool_decide (s = SvcUnset) then mret (tags ++ ["svc_unset"])
  else
    key ← NewContextKey entry.2;
    val ← lift (Value ctx (as_key key));
    match val with
    | VNil => mret (tags ++ ["unset"])
    | VString s => mret (tags ++ [s])
    | _ => panic ("interface conversion: interface {} is "
                  +:+ dynamic_type val +:+ ", not string")
    end.

(** The loop over the entries of a map, in the given order. *)
Fixpoint range_tags (ctx : Context) (entries : list (string * ReqKey))
    (tags : list string) : M (list string) :=
  match entries with
  | [] => mret tags
  | entry :: rest => tags' ← tag_step ctx tags entry; range_tags ctx rest tags'
  end.

Definition MetricsTagsFromContext (ctx : Context) : M (list string) :=
  range_tags ctx (map_to_list selectedTags) [].

(** The copying loop of [LogTagsFromContext]: slot [i] of the fresh
    slice receives [tags[i]]. *)
Definition copy_tags (tags : list string) (intfTags : list value) : list value :=
  fold_left (λ acc i, <[ i := VString (tags !!! i) ]> acc)
            (seq 0 (length tags)) intfTags.

Definition LogTagsFromContext (ctx : Context) : M (list value) :=
  tags ← MetricsTagsFromContext ctx;
  let intfTags := replicate (length tags) VNil in
  mret (copy_tags tags intfTags).

(** *** A concrete request, for the examples *)

(** The state after a first [Init] call. *)
Definition st_example : State := {| svc := SvcUnset; once := true |}.

(** A state in which some service identity is set. *)
Definition st_service : State := {| svc := 1; once := true |}.

(** A context holding the endpoint under the key that
    [NewContextKey(ReqEndpoint)] gives in state [st]. *)
Definition ctx_GetUser (st : State) : Context :=
  Some (WithValue Background (KeyCtx (svc st) ReqEndpoint) (VString "GetUser")).

(** A sequence of [Init] calls, as a service makes them at startup. *)
Fixpoint Inits (names : list string) : M unit :=
  match names with
  | [] => mret tt
  | name :: rest => Init name ;; Inits rest
  end.

End fctx.

(** ** Package stack (github.com/go-stack/stack) *)

Module stack.

(** A [stack.Call]; [None] is the zero [Call] that [Caller] gives when
    the stack is not that deep. *)
Definition Call := option Frame.

(** The largest Go [int]. *)
Definition max_int : Z := 2 ^ 63 - 1.

(** A frame below the function that calls [Caller]: one of go-stack or
    of the runtime, not identified further. *)
Definition below_caller : Call := Some (KitFrame "stack.Caller").

(** [stack.Caller(skip)] in a function whose stack is [stk], its own
    frame first.  go-stack asks the runtime for the frames from
    [skip + 1] on, computed on a Go [int]: a negative [skip], and the
    largest [int] (for which [skip + 1] wraps around), reach below the
    calling function. *)
Definition Caller (skip : Z) (stk : list Frame) : Call :=
  if decide (skip < 0 ∨ max_int ≤ skip) then below_caller
  else stk !! Z.to_nat skip.

End stack.

(** ** Package log (github.com/go-kit/kit/log)

    The library is an external collaborator of the repository.  Its
    contextual logger is embedded after its documented behaviour: [With]
    appends keyvals to those a logger carries, [WithPrefix] prepends
    them, a missing last value is filled with [ErrMissingValue], and
    [Log] evaluates the stored [Valuer]s before it hands the record to
    the underlying logger.  The library never writes to a slice of
    keyvals once a logger holds it (it builds every stored slice without
    spare capacity, so that a later append copies), which is why a logger
    is a value here and its keyvals a list. *)

Module log.

Inductive Encoding := JSON | Logfmt.

(** The three loggers [Init] can install; the encoding ones write to
    [os.Stdout]. *)
Inductive BaseLogger := JSONLogger | LogfmtLogger | NopLogger.

(** What the process shares with its environment: the records written
    to standard output so far, the wall clock, and the fault, if any,
    with which encoding a record and writing it out fails. *)
Record OS := mkOS {
  stdout : list (Encoding * list value);
  clock : Z;
  write_fault : Encoding → list value → option error
}.

Record context := mkContext {
  logger : BaseLogger;
  keyvals : list value;
  hasValuer : bool
}.

(** A [log.Logger] interface value. *)
Inductive Logger :=
| Base (b : BaseLogger)
| Ctx (c : context).

Definition ErrMissingValue : value := VError (mkError "(MISSING)").

Definition newContext (l : Logger) : context :=
  match l with
  | Ctx c => c
  | Base b => {| logger := b; keyvals := []; hasValuer := false |}
  end.

(** Is some value (every second element) a [Valuer]? *)
Fixpoint containsValuer (keyvals : list value) : bool :=
  match keyvals with
  | _ :: VValuer _ :: _ => true
  | _ :: _ :: rest => containsValuer rest
  | _ => false
  end.

(** Replaces every [Valuer] in value position by what it evaluates to. *)
Fixpoint bindValues (env : Env) (keyvals : list value) : list value :=
  match keyvals with
  | k :: v :: rest =>
      k :: match v with VValuer f => f env | _ => v end :: bindValues env rest
  | _ => keyvals
  end.

(** [if len(kvs)%2 != 0 { kvs = append(kvs, ErrMissingValue) }] *)
Definition fill_missing (kvs : list value) : list value :=
  if Nat.odd (length kvs) then kvs ++ [ErrMissingValue] else kvs.

Definition With (l : Logger) (kvs : list value) : Logger :=
  match kvs with
  | [] => l
  | _ =>
      let c := newContext l in
      Ctx {| logger := logger c;
             keyvals := fill_missing (keyvals c ++ kvs);
             hasValuer := hasValuer c || containsValuer kvs |}
  end.

Definition WithPrefix (l : Logger) (kvs : list value) : Logger :=
  match kvs with
  | [] => l
  | _ =>
      let c := newContext l in
      Ctx {| logger := logger c;
             keyvals := fill_missing kvs ++ keyvals c;
             hasValuer := hasValuer c || containsValuer kvs |}
  end.

(** An encoding logger appends the record to standard output unless
    encoding or writing fails; it returns that failure. *)
Definition write (enc : Encoding) (kvs : list value) (os : OS)
    : option error * OS :=
  match write_fault os enc kvs with
  | Some e => (Some e, os)
  | None => (None, {| stdout := stdout os ++ [(enc, kvs)];
                      clock := clock os;
                      write_fault := write_fault os |})
  end.

Definition BaseLogger_Log (b : BaseLogger) (kvs : list value) (os : OS)
    : option error * OS :=
  match b with
  | JSONLogger => write JSON kvs os
  | LogfmtLogger => write Logfmt kvs os
  | NopLogger => (None, os)
  end.

Definition Log_frame : Frame := KitFrame "(*context).Log".
Definition bindValues_frame : Frame := KitFrame "bindValues".

(** The [Log] method of the contextual logger, called from a function
    whose stack is [stk]. *)
Definition context_Log (c : context) (args : list value)
    (stk : list Frame) (os : OS) : option error * OS :=
  let kvs := fill_missing (keyvals c ++ args) in
  let n := length (keyvals c) in
  let kvs :=
    if hasValuer c then
      bindValues {| stack := bindValues_frame :: Log_frame :: stk;
                    now := clock os |} (take n kvs) ++ drop n kvs
    else kvs in
  BaseLogger_Log (logger c) kvs os.

(** [logger.Log(args...)] *)
Definition Log (l : Logger) (args : list value)
    (stk : list Frame) (os : OS) : option error * OS :=
  match l with
  | Base b => BaseLogger_Log b args os
  | Ctx c => context_Log c args stk os
  end.

(** [log.DefaultTimestampUTC] *)
Definition DefaultTimestampUTC : value := VValuer (λ env, VTime (now env)).

(** The loggers that [With] and [WithPrefix] build: the stored keyvals
    come in pairs, and [hasValuer] is set when one of the stored values
    is a [Valuer]. *)
Definition wf_context (c : context) : bool :=
  Nat.even (length (keyvals c))
  && implb (containsValuer (keyvals c)) (hasValuer c).

Definition wf (l : Logger) : bool :=
  match l with Base _ => true | Ctx c => wf_context c end.

(** The value a record gives a key when a later pair overrides an
    earlier one, as in the object the JSON logger builds. *)
Fixpoint record_get (key : string) (record : list value) : option value :=
  match record with
  | k :: v :: rest =>
      match record_get key rest with
      | Some v' => Some v'
      | None =>
          match k with
          | VString s => if decide (s = key) then Some v else None
          | _ => None
          end
      end
  | _ => None
  end.

End log.

(** ** Package level (github.com/go-kit/kit/log/level) *)

Module level.

Definition Key : value := VString "level".
Definition DebugValue : value := VLevel "debug".
Definition InfoValue : value := VLevel "info".
Definition WarnValue : value := VLevel "warn".
Definition ErrorValue : value := VLevel "error".

Definition Debug (l : log.Logger) : log.Logger := log.WithPrefix l [Key; DebugValue].
Definition Info (l : log.Logger) : log.Logger := log.WithPrefix l [Key; InfoValue].
Definition Warn (l : log.Logger) : log.Logger := log.WithPrefix l [Key; WarnValue].
Definition Error (l : log.Logger) : log.Logger := log.WithPrefix l [Key; ErrorValue].

End level.

(** ** Package logger *)

Module logger.
Import context.

Abbreviation LogFormat := Z (only parsing).
Definition FormatLogfmt : LogFormat := 0.
Definition FormatJson : LogFormat := 1.
Definition FormatNop : LogFormat := 2.
Definition FormatDefault : LogFormat := FormatJson.

Definition nominalStackDepth : Z := 3.

(** [levels] is the one implementation of the [Leveler] interface. *)
Record levels := mkLevels { internalLogger : log.Logger }.

(** Flags of the standard library's [log] package. *)
Definition LstdFlags : Z := 3.
Definition Llongfile : Z := 8.

(** The package variables [defaultLevels] (a [Leveler], [None] while
    it is the nil interface) and [defaultFormat], the variables of
    package [fctx], the settings of the standard library's logger
    ([stdlog_output] is the logger behind the adapter installed with
    [SetOutput], [None] while output goes to standard error), and the
    environment. *)
Record World := mkWorld {
  fctx_state : fctx.State;
  defaultLevels : option levels;
  defaultFormat : LogFormat;
  stdlog_flags : Z;
  stdlog_output : option log.Logger;
  os : log.OS
}.

(** A computation runs in a function whose call stack is given,
    innermost frame first. *)
Definition M (A : Type) : Type := list Frame → World → Result (A * World).

Global Instance M_ret : MRet M := λ A a _ w, Ok (a, w).
Global Instance M_bind : MBind M := λ A B k m stk w,
  match m stk w with
  | Ok (a, w') => k a stk w'
  | Panic msg => Panic msg
  end.
Definition panic {A} (msg : string) : M A := λ _ _, Panic msg.

(** Calling a function pushes its frame. *)
Definition call {A} (frame : Frame) (body : M A) : M A :=
  λ stk w, body (frame :: stk) w.

(** A method call on [defaultLevels] panics while it is nil. *)
Definition get_defaultLevels : M levels :=
  λ _ w, match defaultLevels w with
         | Some l => Ok (l, w)
         | None => Panic "runtime error: invalid memory address or nil pointer dereference"
         end.
Definition set_defaultLevels (l : levels) : M unit :=
  λ _ w, Ok (tt, {| fctx_state := fctx_state w; defaultLevels := Some l;
                    defaultFormat := defaultFormat w;
                    stdlog_flags := stdlog_flags w;
                    stdlog_output := stdlog_output w; os := os w |}).
Definition get_defaultFormat : M LogFormat := λ _ w, Ok (defaultFormat w, w).
Definition set_defaultFormat (format : LogFormat) : M unit :=
  λ _ w, Ok (tt, {| fctx_state := fctx_state w; defaultLevels := defaultLevels w;
                    defaultFormat := format;
                    stdlog_flags := stdlog_flags w;
                    stdlog_output := stdlog_output w; os := os w |}).
Definition stdlog_SetFlags (flags : Z) : M unit :=
  λ _ w, Ok (tt, {| fctx_state := fctx_state w; defaultLevels := defaultLevels w;
                    defaultFormat := defaultFormat w;
                    stdlog_flags := flags;
                    stdlog_output := stdlog_output w; os := os w |}).
(** [stdlog.SetOutput(log.NewStdlibAdapter(l))] *)
Definition stdlog_SetOutput (l : log.Logger) : M unit :=
  λ _ w, Ok (tt, {| fctx_state := fctx_state w; defaultLevels := defaultLevels w;
                    defaultFormat := defaultFormat w;
                    stdlog_flags := stdlog_flags w;
                    stdlog_output := Some l; os := os w |}).

(** Runs a computation of package [fctx] on its part of the state. *)
Definition in_fctx {A} (m : fctx.M A) : M A :=
  λ _ w, match m (fctx_state w) with
         | Ok (a, st) =>
             Ok (a, {| fctx_state := st; defaultLevels := defaultLevels w;
                       defaultFormat := defaultFormat w;
                       stdlog_flags := stdlog_flags w;
                       stdlog_output := stdlog_output w; os := os w |})
         | Panic msg => Panic msg
         end.

Definition set_os (w : World) (o : log.OS) : World :=
  {| fctx_state := fctx_state w; defaultLevels := defaultLevels w;
     defaultFormat := defaultFormat w; stdlog_flags := stdlog_flags w;
     stdlog_output := stdlog_output w; os := o |}.

(** [l.Log(args...)] on a go-kit logger, from the current function. *)
Definition Log (l : log.Logger) (args : list value) : M (option error) :=
  λ stk w,
    let r := log.Log l args stk (os w) in
    Ok (r.1, set_os w r.2).

(** An [error] passed as [interface{}]; a nil error is the nil
    interface. *)
Definition of_error (err : option error) : value :=
  match err with Some e => VError e | None => VNil end.

Section Runtime.

(** [fmt.Sprintf(verb, call)] for a [stack.Call], as go-stack's
    [Format] method renders it from the debug information of the
    running binary. *)
Variable Sprintf : string → stack.Call → string.

(** The closure's own frame is innermost when it asks for the
    caller. *)
Definition caller (depth : Z) : value :=
  VValuer (λ env,
    VString (Sprintf "%+v"
      (stack.Caller depth (PkgFrame "caller.func1" 201 :: stack env)))).

Definition function (depth : Z) : value :=
  VValuer (λ env,
    VString (Sprintf "%n"
      (stack.Caller depth (PkgFrame "function.func1" 208 :: stack env)))).

Definition levels_Info (l : levels) : log.Logger := level.Info (internalLogger l).
Definition levels_Debug (l : levels) : log.Logger := level.Debug (internalLogger l).
Definition levels_Warn (l : levels) : log.Logger := level.Warn (internalLogger l).
Definition levels_Error (l : levels) : log.Logger := level.Error (internalLogger l).

Definition levels_With (l : levels) (keyvals : list value) : levels :=
  {| internalLogger := log.With (internalLogger l) keyvals |}.

Definition levels_WithCustomDepth (l : levels) (depth : Z)
    (keyvals : list value) : levels :=
  levels_With
    (levels_With l [VString "caller"; caller depth;
                    VString "function"; function depth])
    keyvals.

Definition levels_WithContext (l : levels) (ctx : Context) : M levels :=
  tags ← in_fctx (fctx.LogTagsFromContext ctx);
  mret (levels_WithCustomDepth l (nominalStackDepth + 2) tags).

(** The method's own frame is the one pushed; a frame that the compiler
    may put in between when the method is reached through the [Leveler]
    interface is not part of the model. *)
Definition levels_LogError (l : levels) (err : option error)
    (keyvals : list value) : M (option error) :=
  call (PkgFrame "levels.LogError" 191)
    (Log (levels_Error (levels_WithCustomDepth l (nominalStackDepth + 2) keyvals))
         [VString "err"; of_error err]).

Definition AddDefaultKeyvals (keyvals : list value) : M unit :=
  l ← get_defaultLevels;
  set_defaultLevels (levels_With l keyvals);;
  l ← get_defaultLevels;
  let stdlibAdapter :=
    levels_Info (levels_With l [VString "function";
                                VString "stdlibLoggerRedirect"]) in
  stdlog_SetOutput stdlibAdapter.

Definition Init (format : LogFormat) : M unit :=
  l ← (if decide (format = FormatJson) then mret (log.Base log.JSONLogger)
       else if decide (format = FormatLogfmt) then mret (log.Base log.LogfmtLogger)
       else if decide (format = FormatNop) then mret (log.Base log.NopLogger)
       else panic ("invalid log format: " +:+ pretty format));
  set_defaultFormat format;;
  set_defaultLevels {| internalLogger := l |};;
  AddDefaultKeyvals [VString "timestamp"; log.DefaultTimestampUTC;
                     VString "file"; caller nominalStackDepth;
                     VString "function"; function nominalStackDepth].

(** The package's [init] function. *)
Definition init : M unit :=
  stdlog_SetFlags Llongfile;;
  format ← get_defaultFormat;
  Init format.

Definition Info : M log.Logger := l ← get_defaultLevels; mret (levels_Info l).
Definition Debug : M log.Logger := l ← get_defaultLevels; mret (levels_Debug l).
Definition Warn : M log.Logger := l ← get_defaultLevels; mret (levels_Warn l).
Definition Error : M log.Logger := l ← get_defaultLevels; mret (levels_Error l).

Definition With (keyvals : list value) : M levels :=
  l ← get_defaultLevels; mret (levels_With l keyvals).

Definition WithCustomDepth (depth : Z) (keyvals : list value) : M levels :=
  l ← get_defaultLevels; mret (levels_WithCustomDepth l depth keyvals).

Definition WithContext (ctx : Context) : M levels :=
  l ← get_defaultLevels; levels_WithContext l ctx.

Definition LogError (err : option error) (keyvals : list value)
    : M (option error) :=
  call (PkgFrame "LogError" 126)
    (l ← get_defaultLevels;
     Log (levels_Error (levels_WithCustomDepth l (nominalStackDepth + 1) keyvals))
         [VString "err"; of_error err]).

(** The record [LogError] hands to the underlying logger, in closed
    form: the level, the keyvals the default logger carries, the call
    site of the function that called [LogError], the given keyvals,
    and the error. *)
Definition LogError_record (l : levels) (err : option error)
    (kvs : list value) (stk : list Frame) (o : log.OS) : list value :=
  let env := {| stack := log.bindValues_frame :: log.Log_frame
                         :: PkgFrame "LogError" 126 :: stk;
                now := log.clock o |} in
  [level.Key; level.ErrorValue]
  ++ log.bindValues env (log.keyvals (log.newContext (internalLogger l)))
  ++ [VString "caller"; VString (Sprintf "%+v" (stk !! 0%nat));
      VString "function"; VString (Sprintf "%n" (stk !! 0%nat))]
  ++ log.bindValues env (log.fill_missing kvs)
  ++ [VString "err"; of_error err].

End Runtime.

(** The world of a freshly loaded program, before the package's [init]
    has run. *)
Definition world0 (o : log.OS) : World :=
  {| fctx_state := fctx.st0; defaultLevels := None;
     defaultFormat := FormatJson;
     stdlog_flags := LstdFlags; stdlog_output := None; os := o |}.

(** *** A concrete environment, for the examples *)

(** One way go-stack may print a frame. *)
Definition Sprintf_example (verb : string) (c : stack.Call) : string :=
  match c with
  | None => "(NOFUNC)"
  | Some (HostFrame file_line func) =>
      if decide (verb = "%n") then func else file_line
  | Some (PkgFrame func line) =>
      if decide (verb = "%n") then func else "logger.go:" +:+ pretty line
  | Some (KitFrame func) =>
      if decide (verb = "%n") then func else "log.go"
  end.

(** An environment in which standard output takes every record. *)
Definition os_example : log.OS :=
  {| log.stdout := []; log.clock := 1700000000;
     log.write_fault := λ _ _, None |}.

(** A request handler running under [main]. *)
Definition stack_example : list Frame :=
  [HostFrame "users/handler.go:42" "GetUser"; HostFrame "main.go:10" "main"].

(** The world once the package's [init] function has run. *)
Definition world_example : World :=
  match init Sprintf_example [] (world0 os_example) with
  | Ok (_, w) => w
  | Panic _ => world0 os_example
  end.

(** The default logger of that world. *)
Definition levels_example : levels :=
  match defaultLevels world_example with
  | Some l => l
  | None => {| internalLogger := log.Base log.NopLogger |}
  end.

Definition boom : error := mkError "boom".

(** The default logger is in place and well formed: the state every
    exported function relies on. *)
Definition initialized (w : World) : bool :=
  match defaultLevels w with
  | Some l => log.wf (internalLogger l)
  | None => false
  end.

(** The world once [Init(FormatNop)] has run on top of [init]. *)
Definition world_nop : World :=
  match Init Sprintf_example FormatNop [] world_example with
  | Ok (_, w) => w
  | Panic _ => world_example
  end.

Definition levels_nop : levels :=
  match defaultLevels world_nop with
  | Some l => l
  | None => {| internalLogger := log.Base log.NopLogger |}
  end.

End logger.

(** ** The contextual logger in memory

    [log.With] once more, now on Go slices: a slice is a window on a
    backing array, and [append] writes into the array in place when the
    capacity allows.  This is the level at which a receiver could be
    changed behind its back; [mem_spec] shows that it is not, and that
    the loggers of module [log] are what these denote. *)

Module mem.
Import log.

(** A slice header: the address of the backing array, the length and
    the capacity.  The heap maps an address to the array stored there. *)
Record slice := mkSlice { arr : nat; len : nat; cap : nat }.

Definition nil_slice : slice := {| arr := 0; len := 0; cap := 0 |}.

Definition array (h : gmap nat (list value)) (s : slice) : list value :=
  default [] (h !! arr s).

(** The elements of a slice. *)
Definition read (h : gmap nat (list value)) (s : slice) : list value :=
  take (len s) (array h s).

Section Growth.

(** The capacity the runtime chooses for a slice of capacity [c] that
    must grow to hold [n] elements. *)
Variable grow : nat → nat → nat.

(** [append(s, xs...)]: in place when the elements fit the capacity, in a
    newly allocated array otherwise. *)
Definition append (h : gmap nat (list value)) (s : slice) (xs : list value)
    : gmap nat (list value) * slice :=
  match xs with
  | [] => (h, s)
  | _ =>
      let n := (len s + length xs)%nat in
      if decide (n ≤ cap s)%nat then
        (<[arr s := take (len s) (array h s) ++ xs ++ drop n (array h s)]> h,
         {| arr := arr s; len := n; cap := cap s |})
      else
        let a := fresh (dom h) in
        (<[a := read h s ++ xs ++ replicate (grow (cap s) n - n) VNil]> h,
         {| arr := a; len := n; cap := n + (grow (cap s) n - n) |})
  end.

Record hcontext := mkHContext {
  hlogger : BaseLogger;
  hkeyvals : slice;
  hhasValuer : bool
}.

Inductive HLogger :=
| HBase (b : BaseLogger)
| HCtx (c : hcontext).

Definition hnewContext (l : HLogger) : hcontext :=
  match l with
  | HCtx c => c
  | HBase b => {| hlogger := b; hkeyvals := nil_slice; hhasValuer := false |}
  end.

(** [if len(kvs)%2 != 0 { kvs = append(kvs, ErrMissingValue) }] *)
Definition fill_missing_h (h : gmap nat (list value)) (s : slice)
    : gmap nat (list value) * slice :=
  if Nat.odd (len s) then append h s [ErrMissingValue] else (h, s).

(** [kvs[:len(kvs):len(kvs)]]: the same elements, no spare capacity. *)
Definition clip (s : slice) : slice :=
  {| arr := arr s; len := len s; cap := len s |}.

Definition With_h (h : gmap nat (list value)) (l : HLogger) (kvs : list value)
    : gmap nat (list value) * HLogger :=
  match kvs with
  | [] => (h, l)
  | _ =>
      let c := hnewContext l in
      let r1 := append h (hkeyvals c) kvs in
      let r2 := fill_missing_h r1.1 r1.2 in
      (r2.1, HCtx {| hlogger := hlogger c;
                     hkeyvals := clip r2.2;
                     hhasValuer := hhasValuer c || containsValuer kvs |})
  end.

(** [levels] with its logger in memory, and [levels.With] on it: the
    receiver is passed by value and a new struct is returned. *)
Record hlevels := mkHLevels { hinternalLogger : HLogger }.

Definition levels_With_h (h : gmap nat (list value)) (l : hlevels)
    (keyvals : list value) : gmap nat (list value) * hlevels :=
  let r := With_h h (hinternalLogger l) keyvals in
  (r.1, {| hinternalLogger := r.2 |}).

(** A chain of [With] calls, each on the result of the one before. *)
Fixpoint Withs_h (h : gmap nat (list value)) (l : hlevels)
    (kvss : list (list value)) : gmap nat (list value) * hlevels :=
  match kvss with
  | [] => (h, l)
  | kvs :: rest =>
      let r := levels_With_h h l kvs in
      Withs_h r.1 r.2 rest
  end.

End Growth.

(** The logger a logger in memory denotes. *)
Definition abs (h : gmap nat (list value)) (l : HLogger) : Logger :=
  match l with
  | HBase b => Base b
  | HCtx c => Ctx {| logger := hlogger c;
                     keyvals := read h (hkeyvals c);
                     hasValuer := hhasValuer c |}
  end.

Definition abs_levels (h : gmap nat (list value)) (l : hlevels) : logger.levels :=
  {| logger.internalLogger := abs h (hinternalLogger l) |}.

(** The slices the library stores: no spare capacity, and within their
    array. *)
Definition tight (h : gmap nat (list value)) (l : HLogger) : Prop :=
  cap (hkeyvals (hnewContext l)) = len (hkeyvals (hnewContext l))
  ∧ (len (hkeyvals (hnewContext l))
     ≤ length (array h (hkeyvals (hnewContext l))))%nat.

(** A default logger in memory, for the examples: two keyvals in an
    array at address 5, and the growth policy that doubles. *)
Definition heap_example : gmap nat (list value) :=
  {[ 5%nat := [VString "svc"; VString "users"] ]}.

Definition hlevels_example : hlevels :=
  {| hinternalLogger :=
       HCtx {| hlogger := JSONLogger;
               hkeyvals := {| arr := 5; len := 2; cap := 2 |};
               hhasValuer := false |} |}.

Definition grow_example (c n : nat) : nat := (2 * n)%nat.

End mem.

(** * Properties of package fctx *)

Module fctx_spec.
Import context fctx.

(** ** The two tables *)

Lemma selectedTags_entries :
  map_to_list selectedTags = [("endpoint", ReqEndpoint)].
Proof. unfold selectedTags. apply map_to_list_singleton. Qed.

Lemma no_recognized_service (name : string) :
  serviceNameToSvcKey !! name = None.
Proof. unfold serviceNameToSvcKey. apply lookup_empty. Qed.

(** ** Init *)

Lemma bind_Ok {A B} (m : M A) (k : A → M B) st a st' :
  m st = Ok (a, st') → (m ≫= k) st = k a st'.
Proof. intros H. unfold mbind, M_bind. by rewrite H. Qed.

Lemma once_Do_set_svc (k : Z) (st : State) :
  once_Do (set_svc k) st =
    Ok (tt, if once st then st else {| svc := k; once := true |}).
Proof. unfold once_Do, set_svc. destruct (once st); reflexivity. Qed.

Lemma Init_run (name : string) (st : State) :
  Init name st =
    Ok (tt, if once st then st else {| svc := SvcUnset; once := true |}).
Proof.
  unfold Init. rewrite no_recognized_service. apply once_Do_set_svc.
Qed.

(** Whatever the table holds, [Init] returns with the guard fired, and
    changes nothing when it had fired before. *)
Lemma Init_fires (name : string) (st : State) :
  ∃ st', Init name st = Ok (tt, st') ∧ once st' = true
         ∧ (once st = true → st' = st).
Proof.
  unfold Init.
  destruct (serviceNameToSvcKey !! name) as [k|];
    rewrite once_Do_set_svc; destruct (once st) eqn:E; eauto.
  all: eexists; split; [reflexivity|]; split; [done|congruence].
Qed.

Lemma Inits_unset (names : list string) (st : State) :
  svc st = SvcUnset →
  ∃ st', Inits names st = Ok (tt, st') ∧ svc st' = SvcUnset.
Proof.
  revert st. induction names as [|name rest IH]; intros st Hst; simpl.
  - exists st. done.
  - rewrite (bind_Ok _ _ _ _ _ (Init_run name st)).
    apply IH. destruct (once st); done.
Qed.

(** ** The extraction loop *)

Lemma range_tags_unset ctx entries tags st :
  svc st = SvcUnset →
  range_tags ctx entries tags st =
    Ok (tags ++ flat_map (λ e, [e.1; "svc_unset"]) entries, st).
Proof.
  intros Hst. revert tags.
  induction entries as [|e rest IH]; intros tags; simpl.
  - by rewrite app_nil_r.
  - unfold mbind at 1, M_bind at 1.
    unfold tag_step. unfold mbind at 1, M_bind at 1, get_svc; simpl.
    rewrite Hst. simpl. unfold mret, M_ret.
    rewrite IH. by rewrite <- !app_assoc.
Qed.

Lemma MetricsTagsFromContext_step ctx st :
  MetricsTagsFromContext ctx st = tag_step ctx [] ("endpoint", ReqEndpoint) st.
Proof.
  unfold MetricsTagsFromContext. rewrite selectedTags_entries. simpl.
  unfold mbind, M_bind.
  destruct (tag_step ctx [] ("endpoint", ReqEndpoint) st) as [[tags st']|msg];
    reflexivity.
Qed.

Lemma MetricsTagsFromContext_unset ctx st :
  svc st = SvcUnset →
  MetricsTagsFromContext ctx st = Ok (["endpoint"; "svc_unset"], st).
Proof.
  intros Hst. unfold MetricsTagsFromContext.
  rewrite selectedTags_entries. by rewrite range_tags_unset.
Qed.

(** With an identity set, the value under the namespaced key decides. *)
Lemma MetricsTagsFromContext_set c st :
  svc st ≠ SvcUnset →
  MetricsTagsFromContext (Some c) st =
    match ctxt_Value c (KeyCtx (svc st) ReqEndpoint) with
    | VNil => Ok (["endpoint"; "unset"], st)
    | VString s => Ok (["endpoint"; s], st)
    | v => Panic ("interface conversion: interface {} is "
                  +:+ dynamic_type v +:+ ", not string")
    end.
Proof.
  intros Hst. rewrite MetricsTagsFromContext_step.
  unfold tag_step, NewContextKey, get_svc, lift, panic, as_key; simpl.
  unfold mbind, M_bind, mret, M_ret; simpl.
  rewrite bool_decide_eq_false_2 by done.
  by destruct (ctxt_Value c (KeyCtx (svc st) ReqEndpoint)).
Qed.

(** The type assertion is a real failure path: an integer under the
    key makes the extraction panic once an identity is set. *)
Example MetricsTagsFromContext_not_a_string :
  MetricsTagsFromContext
    (Some (WithValue Background (KeyCtx 1 ReqEndpoint) (VInt 7)))
    {| svc := 1; once := true |}
  = Panic "interface conversion: interface {} is int, not string".
Proof. by rewrite MetricsTagsFromContext_set. Qed.

Lemma stores_strings_Value c s r :
  stores_strings c = true →
  ctxt_Value c (KeyCtx s r) = VNil ∨ ∃ str, ctxt_Value c (KeyCtx s r) = VString str.
Proof.
  induction c as [|p IH k v|p IH]; simpl; intros H; auto.
  destruct k as [a b|n].
  - destruct v; try discriminate. case_decide; eauto.
  - case_decide; [discriminate|auto].
Qed.

(** ** The copying loop *)

(** After [k] rounds the first [k] slots hold the tags and the others
    are still nil. *)
Lemma copy_tags_prefix (tags : list string) (k : nat) :
  (k ≤ length tags)%nat →
  fold_left (λ acc i, <[ i := VString (tags !!! i) ]> acc) (seq 0 k)
            (replicate (length tags) VNil)
  = (VString <$> take k tags) ++ replicate (length tags - k) VNil.
Proof.
  induction k as [|k IH]; intros Hk.
  - simpl. by rewrite Nat.sub_0_r.
  - rewrite seq_S, fold_left_app, IH by lia. simpl.
    destruct (lookup_lt_is_Some_2 tags k) as [x Hx]; [lia|].
    rewrite (list_lookup_total_correct _ _ _ Hx).
    rewrite (take_S_r _ _ _ Hx), fmap_app. simpl.
    replace (length tags - k)%nat with (S (length tags - S k)) by lia.
    simpl. rewrite <- app_assoc. simpl.
    rewrite insert_app_r_alt; rewrite length_fmap, length_take; [|lia].
    replace (k - k `min` length tags)%nat with 0%nat by lia.
    reflexivity.
Qed.

Lemma copy_tags_fmap (tags : list string) :
  copy_tags tags (replicate (length tags) VNil) = VString <$> tags.
Proof.
  unfold copy_tags. rewrite copy_tags_prefix by lia.
  rewrite firstn_all, Nat.sub_diag. simpl. by rewrite app_nil_r.
Qed.

Lemma LogTagsFromContext_fmap ctx st :
  LogTagsFromContext ctx st =
    match MetricsTagsFromContext ctx st with
    | Ok (tags, st') => Ok (VString <$> tags, st')
    | Panic msg => Panic msg
    end.
Proof.
  unfold LogTagsFromContext, mbind, M_bind.
  destruct (MetricsTagsFromContext ctx st) as [[tags st']|msg]; [|done].
  unfold mret, M_ret. by rewrite copy_tags_fmap.
Qed.

(** ** The claims on the registry *)

(** C3: the table of recognized service names is empty; so whatever
    [Init] calls a program makes, the identity stays [SvcUnset], and for
    every context the extraction returns ["endpoint"; "svc_unset"]. *)
Theorem Init_keeps_identity_unset (names : list string) :
  (∀ name, serviceNameToSvcKey !! name = None)
  ∧ ∃ st, Inits names st0 = Ok (tt, st)
          ∧ svc st = SvcUnset
          ∧ ∀ ctx, MetricsTagsFromContext ctx st
                   = Ok (["endpoint"; "svc_unset"], st).
Proof.
  split; [apply no_recognized_service|].
  destruct (Inits_unset names st0) as (st & Hrun & Hsvc); [done|].
  exists st. split; [done|]. split; [done|].
  intros ctx. by apply MetricsTagsFromContext_unset.
Qed.

(** C4: [Init] is first-call-wins.  From every state, [Init n1] returns
    normally, and a following [Init n2] returns normally and leaves the
    state as [Init n1] left it; and when [n1] is not a recognized name
    and no earlier call has set an identity, the identity after the
    call is [SvcUnset]. *)
Theorem Init_first_call_wins (n1 n2 : string) (st : State) :
  ∃ st1, Init n1 st = Ok (tt, st1)
         ∧ Init n2 st1 = Ok (tt, st1)
         ∧ (serviceNameToSvcKey !! n1 = None →
            once st = false ∨ svc st = SvcUnset →
            svc st1 = SvcUnset).
Proof.
  destruct (Init_fires n1 st) as (st1 & H1 & Hfired & Hsame).
  exists st1. split; [done|]. split.
  - destruct (Init_fires n2 st1) as (st2 & H2 & _ & Hsame2).
    by rewrite H2, (Hsame2 Hfired).
  - intros Hname Hst. unfold Init in H1. rewrite Hname in H1.
    rewrite once_Do_set_svc in H1. injection H1 as <-.
    destruct (once st); [|done]. by destruct Hst.
Qed.

Lemma Init_first_call_wins_witness :
  ∃ st1, Init "billing" st0 = Ok (tt, st1)
         ∧ Init "users" st1 = Ok (tt, st1)
         ∧ svc st1 = SvcUnset.
Proof.
  destruct (Init_first_call_wins "billing" "users" st0) as (st1 & H1 & H2 & H3).
  exists st1. split; [exact H1|]. split; [exact H2|].
  apply H3; [reflexivity|left; reflexivity].
Defined.

(** No name at all is recognized, so no [Init] call can set an
    identity: after one, with ["GetUser"] stored under
    [NewContextKey(ReqEndpoint)], the extraction returns
    ["endpoint"; "svc_unset"]. *)
Lemma Init_leaves_endpoint_unset :
  (∀ name, serviceNameToSvcKey !! name = None)
  ∧ Init "users" st0 = Ok (tt, st_example)
  ∧ NewContextKey ReqEndpoint st_example
    = Ok ({| CtxKey_SvcKey := SvcUnset; CtxKey_ReqKey := ReqEndpoint |}, st_example)
  ∧ Value (ctx_GetUser st_example) (KeyCtx SvcUnset ReqEndpoint)
    = Ok (VString "GetUser")
  ∧ MetricsTagsFromContext (ctx_GetUser st_example) st_example
    = Ok (["endpoint"; "svc_unset"], st_example)
  ∧ MetricsTagsFromContext (ctx_GetUser st_example) st_example
    ≠ Ok (["endpoint"; "GetUser"], st_example).
Proof.
  split; [apply no_recognized_service|].
  split; [by rewrite Init_run|].
  split; [reflexivity|]. split; [reflexivity|].
  rewrite MetricsTagsFromContext_unset by reflexivity.
  split; [reflexivity|discriminate].
Qed.

(** C2: in every state in which a service identity is set (one other
    than [SvcUnset], as an [Init] call with a recognized name leaves
    it), for every context that holds ["GetUser"] under
    [NewContextKey(ReqEndpoint)], the extraction returns
    ["endpoint"; "GetUser"].  The table of this repository recognizes
    no name, so that the states a program reaches through [Init] are
    not among these: there the extraction returns
    ["endpoint"; "svc_unset"]. *)
Theorem MetricsTags_endpoint_when_identity_set
    (st : State) (ctx : Context) (key : CtxKey) (names : list string) :
  (svc st ≠ SvcUnset →
   NewContextKey ReqEndpoint st = Ok (key, st) →
   Value ctx (as_key key) = Ok (VString "GetUser") →
   MetricsTagsFromContext ctx st = Ok (["endpoint"; "GetUser"], st))
  ∧ (∃ st', Inits names st0 = Ok (tt, st')
            ∧ MetricsTagsFromContext ctx st'
              = Ok (["endpoint"; "svc_unset"], st')).
Proof.
  split.
  - intros Hsvc Hkey Hval.
    injection Hkey as <-. unfold as_key in Hval; simpl in Hval.
    destruct ctx as [c|]; [|discriminate]. injection Hval as Hval.
    by rewrite MetricsTagsFromContext_set, Hval.
  - destruct (Inits_unset names st0) as (st' & Hrun & Hsvc); [done|].
    exists st'. split; [done|]. by apply MetricsTagsFromContext_unset.
Qed.

Lemma MetricsTags_endpoint_when_identity_set_witness :
  MetricsTagsFromContext (ctx_GetUser st_service) st_service
  = Ok (["endpoint"; "GetUser"], st_service).
Proof.
  apply (proj1 (MetricsTags_endpoint_when_identity_set st_service
           (ctx_GetUser st_service)
           {| CtxKey_SvcKey := 1; CtxKey_ReqKey := ReqEndpoint |} [])).
  - vm_compute. discriminate.
  - reflexivity.
  - reflexivity.
Defined.

(** C6: the registry does not panic.  After any sequence of [Init]
    calls both extractions return normally for every context, the nil
    one included, with the value ["svc_unset"].  And in any state, for a
    non-nil context in which every value stored under a namespaced key is a
    string, both return normally: the value is ["svc_unset"] without an
    identity, ["unset"] when the context has nothing under the key, and
    the stored string otherwise. *)
Theorem tags_never_panic
    (names : list string) (ctx : Context) (st : State) (c : ctxt) :
  (∃ st', Inits names st0 = Ok (tt, st')
          ∧ MetricsTagsFromContext ctx st'
            = Ok (["endpoint"; "svc_unset"], st')
          ∧ LogTagsFromContext ctx st'
            = Ok ([VString "endpoint"; VString "svc_unset"], st'))
  ∧ (stores_strings c = true →
     ∃ v, MetricsTagsFromContext (Some c) st = Ok (["endpoint"; v], st)
          ∧ LogTagsFromContext (Some c) st
            = Ok ([VString "endpoint"; VString v], st)
          ∧ ((svc st = SvcUnset ∧ v = "svc_unset")
             ∨ (svc st ≠ SvcUnset
                ∧ ctxt_Value c (KeyCtx (svc st) ReqEndpoint) = VNil
                ∧ v = "unset")
             ∨ (svc st ≠ SvcUnset
                ∧ ctxt_Value c (KeyCtx (svc st) ReqEndpoint) = VString v))).
Proof.
  split.
  - destruct (Inits_unset names st0) as (st' & Hrun & Hsvc); [done|].
    exists st'. split; [done|].
    rewrite LogTagsFromContext_fmap, MetricsTagsFromContext_unset by done.
    done.
  - intros Hstr. destruct (decide (svc st = SvcUnset)) as [Hsvc|Hsvc].
    + exists "svc_unset".
      rewrite LogTagsFromContext_fmap, MetricsTagsFromContext_unset by done.
      split; [done|]. split; [done|]. left. done.
    + rewrite LogTagsFromContext_fmap, MetricsTagsFromContext_set by done.
      destruct (stores_strings_Value c (svc st) ReqEndpoint Hstr)
        as [Hnil|[str Hval]].
      * exists "unset". rewrite Hnil.
        split; [done|]. split; [done|]. right; left. done.
      * exists str. rewrite Hval.
        split; [done|]. split; [done|]. right; right. done.
Qed.

Lemma tags_never_panic_witness :
  ∃ v, MetricsTagsFromContext (ctx_GetUser st_service) st_service
       = Ok (["endpoint"; v], st_service)
       ∧ LogTagsFromContext (ctx_GetUser st_service) st_service
         = Ok ([VString "endpoint"; VString v], st_service).
Proof.
  destruct (proj2 (tags_never_panic [] None st_service
    (WithValue Background (KeyCtx 1 ReqEndpoint) (VString "GetUser"))))
    as (v & H1 & H2 & _).
  - reflexivity.
  - exists v. split; [exact H1|exact H2].
Defined.

(** C7: [LogTagsFromContext] returns what [MetricsTagsFromContext]
    returns, each string as an [interface{}]: the same length and the
    same entries, and a panic of the one is a panic of the other. *)
Theorem LogTags_same_as_MetricsTags (ctx : Context) (st : State) :
  match MetricsTagsFromContext ctx st, LogTagsFromContext ctx st with
  | Ok (tags, st1), Ok (intfTags, st2) =>
      st1 = st2
      ∧ intfTags = VString <$> tags
      ∧ length intfTags = length tags
      ∧ ∀ i : nat, intfTags !! i = VString <$> tags !! i
  | Panic msg1, Panic msg2 => msg1 = msg2
  | _, _ => False
  end.
Proof.
  rewrite LogTagsFromContext_fmap.
  destruct (MetricsTagsFromContext ctx st) as [[tags st']|msg]; [|done].
  split; [done|]. split; [done|]. split.
  - apply length_fmap.
  - intros i. apply list_lookup_fmap.
Qed.

(** C8: while the service identity is the unset sentinel, every tag
    value [MetricsTagsFromContext] returns is ["svc_unset"], whatever
    the context holds. *)
Theorem MetricsTags_svc_unset (st : State) (ctx : Context) :
  svc st = SvcUnset →
  ∃ tags, MetricsTagsFromContext ctx st = Ok (tags, st)
          ∧ tags = ["endpoint"; "svc_unset"]
          ∧ ∀ (i : nat) v, tags !! (2 * i + 1)%nat = Some v → v = "svc_unset".
Proof.
  intros Hsvc. exists ["endpoint"; "svc_unset"].
  split; [by apply MetricsTagsFromContext_unset|]. split; [done|].
  intros [|i] v; simpl; [congruence|].
  replace (i + S (i + 0) + 1)%nat with (S (S (2 * i)))%nat by lia.
  simpl. discriminate.
Qed.

Lemma MetricsTags_svc_unset_witness :
  ∃ tags, MetricsTagsFromContext (ctx_GetUser st0) st0 = Ok (tags, st0)
          ∧ tags = ["endpoint"; "svc_unset"]
          ∧ ∀ (i : nat) v, tags !! (2 * i + 1)%nat = Some v → v = "svc_unset".
Proof. apply (MetricsTags_svc_unset st0 (ctx_GetUser st0)). reflexivity. Defined.

End fctx_spec.

(** * Properties of the contextual logger *)

Module log_spec.
Import log.

(** Keyvals are read two at a time. *)
Lemma pairs_ind {A} (P : list A → Prop) :
  P [] → (∀ x, P [x]) → (∀ x y l, P l → P (x :: y :: l)) → ∀ l, P l.
Proof.
  intros H0 H1 H2.
  fix IH 1. intros [|x [|y l]]; [done|done|]. apply H2, IH.
Qed.

Lemma even_app {A} (a b : list A) :
  Nat.even (length a) = true →
  Nat.even (length (a ++ b)) = Nat.even (length b).
Proof.
  induction a as [| |x y a IH] using pairs_ind; simpl; [done|discriminate|].
  exact IH.
Qed.

Lemma even_concat {A} (ls : list (list A)) :
  Forall (λ l, Nat.even (length l) = true) ls →
  Nat.even (length (concat ls)) = true.
Proof.
  induction 1 as [|l ls Hl _ IH]; simpl; [done|]. by rewrite even_app.
Qed.

(** ** Filling in a missing value *)

Lemma fill_missing_even kvs :
  Nat.even (length kvs) = true → fill_missing kvs = kvs.
Proof.
  intros H. unfold fill_missing. by rewrite <- Nat.negb_even, H.
Qed.

Lemma fill_missing_app kvs1 kvs2 :
  Nat.even (length kvs1) = true →
  fill_missing (kvs1 ++ kvs2) = kvs1 ++ fill_missing kvs2.
Proof.
  intros H. unfold fill_missing.
  rewrite <- !Nat.negb_even, even_app by done.
  destruct (Nat.even (length kvs2)); simpl; [done|by rewrite app_assoc].
Qed.

Lemma even_fill_missing kvs : Nat.even (length (fill_missing kvs)) = true.
Proof.
  unfold fill_missing. rewrite <- Nat.negb_even.
  destruct (Nat.even (length kvs)) eqn:E; simpl; [done|].
  rewrite length_app. simpl. rewrite Nat.add_1_r, Nat.even_succ.
  by rewrite <- Nat.negb_even, E.
Qed.

Lemma fill_missing_all_even (kvss : list (list value)) :
  Forall (λ kvs, Nat.even (length kvs) = true) kvss →
  fill_missing <$> kvss = kvss.
Proof.
  induction 1 as [|kvs kvss Hkvs _ IH]; [done|].
  rewrite fmap_cons. by rewrite fill_missing_even, IH.
Qed.

(** ** Binding the deferred values *)

Lemma bindValues_app env kvs1 kvs2 :
  Nat.even (length kvs1) = true →
  bindValues env (kvs1 ++ kvs2) = bindValues env kvs1 ++ bindValues env kvs2.
Proof.
  induction kvs1 as [| |k v kvs1 IH] using pairs_ind; simpl;
    [done|discriminate|].
  intros H. by rewrite IH.
Qed.

Lemma length_bindValues env kvs : length (bindValues env kvs) = length kvs.
Proof.
  induction kvs as [| |k v kvs IH] using pairs_ind; simpl; auto.
Qed.

Lemma containsValuer_app kvs1 kvs2 :
  Nat.even (length kvs1) = true →
  containsValuer (kvs1 ++ kvs2) = containsValuer kvs1 || containsValuer kvs2.
Proof.
  induction kvs1 as [| |k v kvs1 IH] using pairs_ind; simpl;
    [done|discriminate|].
  intros H. destruct v; auto.
Qed.

Lemma containsValuer_fill_missing kvs :
  containsValuer (fill_missing kvs) = containsValuer kvs.
Proof.
  unfold fill_missing.
  induction kvs as [| |k v kvs IH] using pairs_ind; simpl; [done|done|].
  change (Nat.odd (S (S (length kvs)))) with (Nat.odd (length kvs)).
  destruct (Nat.odd (length kvs)); destruct v; simpl in *; auto.
Qed.

(** Without a [Valuer] among the values there is nothing to bind. *)
Lemma bindValues_no_Valuer env kvs :
  containsValuer kvs = false → bindValues env kvs = kvs.
Proof.
  induction kvs as [| |k v kvs IH] using pairs_ind; simpl; [done|done|].
  destruct v; intros H; try (by rewrite IH); discriminate.
Qed.

(** ** Looking a key up *)

Lemma record_get_app key r1 r2 :
  Nat.even (length r1) = true →
  record_get key (r1 ++ r2) =
    match record_get key r2 with
    | Some v => Some v
    | None => record_get key r1
    end.
Proof.
  induction r1 as [| |k v r1 IH] using pairs_ind; simpl.
  - intros _. by destruct (record_get key r2).
  - discriminate.
  - intros H. rewrite IH by done. by destruct (record_get key r2).
Qed.

Lemma record_get_last key v r :
  Nat.even (length r) = true →
  record_get key (r ++ [VString key; v]) = Some v.
Proof.
  intros H. rewrite record_get_app by done. simpl. by rewrite decide_True.
Qed.

(** ** With, WithPrefix and Log *)

Lemma wf_newContext l : wf l = true → wf_context (newContext l) = true.
Proof. by destruct l. Qed.

Lemma wf_even l :
  wf l = true → Nat.even (length (keyvals (newContext l))) = true.
Proof. intros Hwf%wf_newContext. by apply andb_prop in Hwf as [? _]. Qed.

Lemma With_logger l kvs : logger (newContext (With l kvs)) = logger (newContext l).
Proof. by destruct kvs. Qed.

Lemma With_keyvals l kvs :
  wf l = true →
  keyvals (newContext (With l kvs)) = keyvals (newContext l) ++ fill_missing kvs.
Proof.
  intros Hev%wf_even.
  destruct kvs as [|k kvs]; simpl.
  - by rewrite app_nil_r.
  - by rewrite fill_missing_app.
Qed.

Lemma With_wf l kvs : wf l = true → wf (With l kvs) = true.
Proof.
  intros Hwf. destruct kvs as [|k kvs]; [done|].
  apply wf_newContext in Hwf. apply andb_prop in Hwf as [Hev Hval].
  unfold With, wf, wf_context; cbn [keyvals hasValuer].
  rewrite fill_missing_app, even_app, even_fill_missing by done.
  rewrite containsValuer_app, containsValuer_fill_missing by done.
  destruct (containsValuer (keyvals (newContext l))),
    (hasValuer (newContext l)), (containsValuer (k :: kvs)); done.
Qed.

Lemma WithPrefix_logger l kvs :
  logger (newContext (WithPrefix l kvs)) = logger (newContext l).
Proof. by destruct kvs. Qed.

Lemma WithPrefix_keyvals l kvs :
  keyvals (newContext (WithPrefix l kvs)) = fill_missing kvs ++ keyvals (newContext l).
Proof. by destruct kvs. Qed.

Lemma WithPrefix_wf l kvs : wf l = true → wf (WithPrefix l kvs) = true.
Proof.
  intros Hwf. destruct kvs as [|k kvs]; [done|].
  apply wf_newContext in Hwf. apply andb_prop in Hwf as [Hev Hval].
  unfold WithPrefix, wf, wf_context; cbn [keyvals hasValuer].
  rewrite even_app, Hev by apply even_fill_missing.
  rewrite containsValuer_app, containsValuer_fill_missing
    by apply even_fill_missing.
  destruct (containsValuer (keyvals (newContext l))),
    (hasValuer (newContext l)), (containsValuer (k :: kvs)); done.
Qed.

(** The record a contextual logger hands on: its stored keyvals with
    the deferred values bound, then the arguments of the call. *)
Lemma context_Log_record c args stk os :
  wf_context c = true →
  context_Log c args stk os =
    BaseLogger_Log (logger c)
      (bindValues {| stack := bindValues_frame :: Log_frame :: stk;
                     now := clock os |} (keyvals c)
       ++ fill_missing args) os.
Proof.
  intros Hwf. apply andb_prop in Hwf as [Hev Hval].
  unfold context_Log. rewrite fill_missing_app by done.
  rewrite take_app_length, drop_app_length.
  destruct (hasValuer c); [done|].
  rewrite bindValues_no_Valuer; [done|].
  by destruct (containsValuer (keyvals c)).
Qed.

(** The same for a logger with a level bound. *)
Lemma leveled_Log_record l lv args stk os :
  wf l = true →
  bindValues {| stack := bindValues_frame :: Log_frame :: stk;
                now := clock os |} [level.Key; lv] = [level.Key; lv] →
  Log (WithPrefix l [level.Key; lv]) args stk os =
    BaseLogger_Log (logger (newContext l))
      ([level.Key; lv]
       ++ bindValues {| stack := bindValues_frame :: Log_frame :: stk;
                        now := clock os |} (keyvals (newContext l))
       ++ fill_missing args) os.
Proof.
  intros Hwf Hlv.
  change (Log (WithPrefix l [level.Key; lv]) args stk os)
    with (context_Log (newContext (WithPrefix l [level.Key; lv])) args stk os).
  rewrite context_Log_record by (by apply wf_newContext, WithPrefix_wf).
  rewrite WithPrefix_logger, WithPrefix_keyvals.
  rewrite (fill_missing_even [_; _]) by done.
  rewrite (bindValues_app _ [_; _]) by done.
  by rewrite Hlv, <- app_assoc.
Qed.

End log_spec.

(** * Properties of the contextual logger in memory *)

Module mem_spec.
Import log mem.

Lemma take_two {A} (a b c : list A) (n : nat) :
  n = (length a + length b)%nat → take n (a ++ b ++ c) = a ++ b.
Proof.
  intros ->. rewrite app_assoc. apply take_app_length'. by rewrite length_app.
Qed.

Section Growth.

Variable grow : nat → nat → nat.

Lemma append_spec h s xs :
  (len s ≤ length (array h s))%nat →
  let r := append grow h s xs in
  read r.1 r.2 = read h s ++ xs
  ∧ len r.2 = (len s + length xs)%nat
  ∧ (len r.2 ≤ length (array r.1 r.2))%nat
  ∧ (∀ a, a ∈ dom h → a ≠ arr s → r.1 !! a = h !! a)
  ∧ (∀ a, a ∈ dom h → a ∈ dom r.1)
  ∧ (cap s = len s → xs ≠ [] →
     (arr r.2 ∉ dom h) ∧ (∀ a, a ∈ dom h → r.1 !! a = h !! a)).
Proof.
  intros Hlen. destruct xs as [|x xs].
  - simpl. rewrite app_nil_r, Nat.add_0_r. repeat split; auto; done.
  - unfold append. set (n := (len s + length (x :: xs))%nat).
    assert (length (read h s) = len s) as Htk
      by (unfold read; rewrite length_take; lia).
    case_decide as Hfit; cbn [fst snd].
    + set (new := take (len s) (array h s) ++ (x :: xs) ++ drop n (array h s)).
      assert (array (<[arr s := new]> h) {| arr := arr s; len := n; cap := cap s |}
              = new) as Harr
        by (unfold array; cbn [arr]; by rewrite lookup_insert_eq).
      unfold read at 1. rewrite Harr. cbn [len].
      split; [apply (take_two (read h s) (x :: xs)); by rewrite Htk|].
      split; [done|]. split.
      { unfold new. fold (read h s). rewrite !length_app, Htk. fold n. lia. }
      split; [intros a _ Hne; by rewrite lookup_insert_ne|].
      split; [intros a Ha; rewrite dom_insert; set_solver|].
      intros Hcap _. subst n. simpl in Hfit. lia.
    + set (a0 := fresh (dom h)).
      set (new := read h s ++ (x :: xs) ++ replicate (grow (cap s) n - n) VNil).
      set (s' := {| arr := a0; len := n; cap := (n + (grow (cap s) n - n))%nat |}).
      assert (array (<[a0 := new]> h) s' = new) as Harr
        by (unfold array; cbn [arr s']; by rewrite lookup_insert_eq).
      pose proof (is_fresh (dom h)) as Hfresh. fold a0 in Hfresh.
      unfold read at 1. rewrite Harr. cbn [len s'].
      split; [apply (take_two (read h s) (x :: xs)); by rewrite Htk|].
      split; [done|]. split.
      { unfold new. rewrite !length_app, Htk. fold n. lia. }
      split; [intros a Ha _; rewrite lookup_insert_ne; [done|]; by intros <-|].
      split; [intros a Ha; rewrite dom_insert; set_solver|].
      intros _ _. split; [done|].
      intros a Ha. rewrite lookup_insert_ne; [done|]. by intros <-.
Qed.

Lemma abs_keyvals h l :
  keyvals (newContext (abs h l)) = read h (hkeyvals (hnewContext l)).
Proof. by destruct l. Qed.

Lemma length_read h s :
  (len s ≤ length (array h s))%nat → length (read h s) = len s.
Proof. intros H. unfold read. rewrite length_take. lia. Qed.

Lemma fill_missing_h_spec h s :
  (len s ≤ length (array h s))%nat →
  let r := fill_missing_h grow h s in
  read r.1 r.2 = fill_missing (read h s)
  ∧ (len r.2 ≤ length (array r.1 r.2))%nat
  ∧ (∀ a, a ∈ dom h → a ≠ arr s → r.1 !! a = h !! a).
Proof.
  intros Hlen. unfold fill_missing_h, fill_missing.
  rewrite length_read by done.
  destruct (Nat.odd (len s)); [|by repeat split].
  destruct (append_spec h s [ErrMissingValue] Hlen) as (H1 & _ & H3 & H4 & _).
  by repeat split.
Qed.

Lemma tight_preserved h h' l :
  tight h l →
  (∀ a, a ∈ dom h → h' !! a = h !! a) →
  tight h' l ∧ abs h' l = abs h l.
Proof.
  intros [Hcap Hlen] Hsame.
  assert (len (hkeyvals (hnewContext l)) = 0%nat
          ∨ array h' (hkeyvals (hnewContext l)) = array h (hkeyvals (hnewContext l)))
    as Harr.
  { unfold array in *.
    destruct (h !! arr (hkeyvals (hnewContext l))) as [a|] eqn:Ha.
    - right. rewrite Hsame, Ha; [done|]. by apply elem_of_dom.
    - left. simpl in Hlen. lia. }
  split.
  - split; [done|]. destruct Harr as [H0 | ->]; [lia|done].
  - destruct l as [b|c]; [done|]. simpl in *. f_equal. f_equal.
    unfold read. destruct Harr as [-> | ->]; done.
Qed.

(** [With] in memory refines [With] on values, and writes to no array
    that was allocated before. *)
Lemma With_h_spec h l kvs :
  tight h l →
  let r := With_h grow h l kvs in
  abs r.1 r.2 = log.With (abs h l) kvs
  ∧ tight r.1 r.2
  ∧ (∀ a, a ∈ dom h → r.1 !! a = h !! a).
Proof.
  intros [Hcap Hlen]. destruct kvs as [|k kvs]; [by repeat split|].
  unfold With_h. cbn zeta. cbn [fst snd].
  set (r1 := append grow h (hkeyvals (hnewContext l)) (k :: kvs)).
  destruct (append_spec h (hkeyvals (hnewContext l)) (k :: kvs) Hlen)
    as (Hread1 & _ & Hlen1 & _ & Hdom1 & Hfresh1).
  fold r1 in Hread1, Hlen1, Hdom1, Hfresh1.
  destruct (Hfresh1 Hcap) as [Hnew Hsame1]; [done|].
  set (r2 := fill_missing_h grow r1.1 r1.2).
  destruct (fill_missing_h_spec _ _ Hlen1) as (Hread2 & Hlen2 & Hsame2).
  fold r2 in Hread2, Hlen2, Hsame2.
  split; [|split].
  - cbn [abs hlogger hkeyvals hhasValuer].
    change (read r2.1 (clip r2.2)) with (read r2.1 r2.2).
    rewrite Hread2, Hread1. unfold log.With. rewrite abs_keyvals.
    by destruct l.
  - split; [done|]. exact Hlen2.
  - intros a Ha. rewrite Hsame2; [by apply Hsame1|by apply Hdom1|].
    intros ->. done.
Qed.

(** A chain of [With] calls denotes the chain on values, and writes to
    no array that was allocated before it. *)
Lemma Withs_h_spec h l kvss :
  tight h (hinternalLogger l) →
  let r := Withs_h grow h l kvss in
  abs_levels r.1 r.2 = foldl logger.levels_With (abs_levels h l) kvss
  ∧ tight r.1 (hinternalLogger r.2)
  ∧ (∀ a, a ∈ dom h → r.1 !! a = h !! a).
Proof.
  revert h l. induction kvss as [|kvs rest IH]; intros h l Htight.
  - cbv zeta. simpl. split; [done|]. split; [exact Htight|done].
  - destruct (With_h_spec h (hinternalLogger l) kvs Htight)
      as (Habs & Htight1 & Hsame1).
    cbn [Withs_h foldl]. cbv zeta.
    destruct (IH (levels_With_h grow h l kvs).1 (levels_With_h grow h l kvs).2
                Htight1) as (Habs2 & Htight2 & Hsame2).
    split; [|split; [done|]].
    + rewrite Habs2. f_equal. unfold abs_levels, logger.levels_With.
      cbn [levels_With_h fst snd hinternalLogger logger.internalLogger].
      by rewrite Habs.
    + intros a Ha. rewrite Hsame2; [by apply Hsame1|].
      apply elem_of_dom. rewrite Hsame1 by done. by apply elem_of_dom.
Qed.

End Growth.

End mem_spec.

(** * Properties of package logger *)

Module logger_spec.
Import log log_spec logger.

Section Runtime.

Variable Sprintf : string → stack.Call → string.

(** ** With and WithCustomDepth *)

Lemma levels_With_keyvals l kvs :
  wf (internalLogger l) = true →
  keyvals (newContext (internalLogger (levels_With l kvs)))
  = keyvals (newContext (internalLogger l)) ++ fill_missing kvs.
Proof. apply With_keyvals. Qed.

Lemma levels_With_fold l (kvss : list (list value)) :
  wf (internalLogger l) = true →
  wf (internalLogger (foldl levels_With l kvss)) = true
  ∧ logger (newContext (internalLogger (foldl levels_With l kvss)))
    = logger (newContext (internalLogger l))
  ∧ keyvals (newContext (internalLogger (foldl levels_With l kvss)))
    = keyvals (newContext (internalLogger l))
      ++ concat (fill_missing <$> kvss).
Proof.
  revert l. induction kvss as [|kvs kvss IH]; intros l Hwf; simpl.
  - by rewrite app_nil_r.
  - destruct (IH (levels_With l kvs)) as (Hwf' & Hlog & Hkvs).
    { by apply With_wf. }
    split; [done|]. split.
    + rewrite Hlog. apply With_logger.
    + rewrite Hkvs, levels_With_keyvals by done. by rewrite <- app_assoc.
Qed.

Lemma WithCustomDepth_keyvals l depth kvs :
  wf (internalLogger l) = true →
  keyvals (newContext (internalLogger (levels_WithCustomDepth Sprintf l depth kvs)))
  = keyvals (newContext (internalLogger l))
    ++ [VString "caller"; caller Sprintf depth;
        VString "function"; function Sprintf depth]
    ++ fill_missing kvs.
Proof.
  intros Hwf. unfold levels_WithCustomDepth, levels_With; cbn [internalLogger].
  rewrite With_keyvals by (by apply With_wf).
  rewrite With_keyvals by done.
  by rewrite <- app_assoc.
Qed.

Lemma WithCustomDepth_wf l depth kvs :
  wf (internalLogger l) = true →
  wf (internalLogger (levels_WithCustomDepth Sprintf l depth kvs)) = true.
Proof.
  intros Hwf. unfold levels_WithCustomDepth, levels_With; cbn [internalLogger].
  by do 2 apply With_wf.
Qed.

Lemma WithCustomDepth_logger l depth kvs :
  logger (newContext (internalLogger (levels_WithCustomDepth Sprintf l depth kvs)))
  = logger (newContext (internalLogger l)).
Proof.
  unfold levels_WithCustomDepth, levels_With; cbn [internalLogger].
  by rewrite !With_logger.
Qed.

(** ** LogError *)

(** [LogError] hands one record, [LogError_record], to the underlying
    logger and returns what that logger returns. *)
Lemma LogError_run err kvs stk w l :
  defaultLevels w = Some l →
  wf (internalLogger l) = true →
  LogError Sprintf err kvs stk w =
    let r := BaseLogger_Log (logger (newContext (internalLogger l)))
               (LogError_record Sprintf l err kvs stk (os w)) (os w) in
    Ok (r.1, set_os w r.2).
Proof.
  intros Hl Hwf.
  unfold LogError, call, mbind, M_bind, get_defaultLevels. rewrite Hl.
  unfold logger.Log, levels_Error, level.Error.
  rewrite leveled_Log_record by (done || by apply WithCustomDepth_wf).
  rewrite WithCustomDepth_logger, WithCustomDepth_keyvals by done.
  pose proof (wf_even _ Hwf) as Hev.
  rewrite bindValues_app by done.
  rewrite (bindValues_app _ [_; _; _; _]) by done.
  rewrite (fill_missing_even [_; _]) by done.
  unfold LogError_record.
  by rewrite <- !app_assoc.
Qed.


Lemma BaseLogger_Log_result sink record o :
  (BaseLogger_Log sink record o).1 =
    match sink with
    | JSONLogger => write_fault o JSON record
    | LogfmtLogger => write_fault o Logfmt record
    | NopLogger => None
    end.
Proof.
  destruct sink; simpl; [| |done]; unfold write;
    by destruct (write_fault o _ record).
Qed.

Lemma BaseLogger_Log_stdout sink enc record o :
  (sink, enc) ∈ [(JSONLogger, JSON); (LogfmtLogger, Logfmt)] →
  write_fault o enc record = None →
  stdout (BaseLogger_Log sink record o).2 = stdout o ++ [(enc, record)].
Proof.
  intros Hin Hok.
  apply elem_of_cons in Hin as [Heq|Hin];
    [|apply list_elem_of_singleton in Hin as Heq];
    injection Heq as -> ->; simpl; unfold write; by rewrite Hok.
Qed.

(** ** Init *)

Lemma Init_recognized format sink stk w :
  (format, sink) ∈ [(FormatJson, JSONLogger); (FormatLogfmt, LogfmtLogger);
                    (FormatNop, NopLogger)] →
  let l := levels_With {| internalLogger := Base sink |}
             [VString "timestamp"; DefaultTimestampUTC;
              VString "file"; caller Sprintf nominalStackDepth;
              VString "function"; function Sprintf nominalStackDepth] in
  Init Sprintf format stk w =
    Ok (tt, {| fctx_state := fctx_state w;
               defaultLevels := Some l;
               defaultFormat := format;
               stdlog_flags := stdlog_flags w;
               stdlog_output :=
                 Some (levels_Info
                         (levels_With l [VString "function";
                                         VString "stdlibLoggerRedirect"]));
               os := os w |}).
Proof.
  intros Hin l. decompose_list_elem_of; simplify_eq; reflexivity.
Qed.

Lemma Init_unrecognized format stk w :
  format ≠ FormatJson → format ≠ FormatLogfmt → format ≠ FormatNop →
  Init Sprintf format stk w = Panic ("invalid log format: " +:+ pretty format).
Proof.
  intros H1 H2 H3. unfold Init, mbind, M_bind.
  by rewrite !decide_False by done.
Qed.

(** [AddDefaultKeyvals] keeps the default logger well formed, and
    leaves the underlying logger in place. *)
Lemma AddDefaultKeyvals_wf kvs stk w l :
  defaultLevels w = Some l →
  wf (internalLogger l) = true →
  ∃ w', AddDefaultKeyvals kvs stk w = Ok (tt, w')
        ∧ defaultLevels w' = Some (levels_With l kvs)
        ∧ wf (internalLogger (levels_With l kvs)) = true
        ∧ os w' = os w.
Proof.
  intros Hl Hwf.
  unfold AddDefaultKeyvals, mbind, M_bind, get_defaultLevels. rewrite Hl.
  simpl. eexists. split; [reflexivity|]. split; [done|].
  split; [by apply With_wf|done].
Qed.

(** ** The claims on the logger *)

(** C1, amended: [LogError(err, keyvals...)] returns what the
    underlying logger returns for the record: nil from the no-op
    logger, and from an encoding logger the fault of encoding and
    writing the record, nil when there is none.  It does not return
    [err].  For an alternating key/value sequence the record ends with
    the given keyvals (deferred values evaluated) and the pair
    ["err"], [err], so that the key ["err"] is bound to [err]. *)
Theorem LogError_returns_sink_result
    (err : option error) (kvs : list value) (stk : list Frame)
    (w : World) (l : levels) :
  defaultLevels w = Some l →
  wf (internalLogger l) = true →
  Nat.even (length kvs) = true →
  ∃ pre env,
    let record := pre ++ bindValues env kvs ++ [VString "err"; of_error err] in
    let sink := logger (newContext (internalLogger l)) in
    LogError Sprintf err kvs stk w
    = Ok ((BaseLogger_Log sink record (os w)).1,
          set_os w (BaseLogger_Log sink record (os w)).2)
    ∧ (BaseLogger_Log sink record (os w)).1
      = match sink with
        | JSONLogger => write_fault (os w) JSON record
        | LogfmtLogger => write_fault (os w) Logfmt record
        | NopLogger => None
        end
    ∧ record_get "err" record = Some (of_error err)
    ∧ (containsValuer kvs = false → bindValues env kvs = kvs).
Proof.
  intros Hl Hwf Hkvs.
  set (env := {| stack := bindValues_frame :: Log_frame
                          :: PkgFrame "LogError" 126 :: stk;
                 now := clock (os w) |}).
  exists ([level.Key; level.ErrorValue]
          ++ bindValues env (keyvals (newContext (internalLogger l)))
          ++ [VString "caller"; VString (Sprintf "%+v" (stk !! 0%nat));
              VString "function"; VString (Sprintf "%n" (stk !! 0%nat))]),
         env.
  cbv zeta. split; [|split; [|split]].
  - rewrite (LogError_run err kvs stk w l Hl Hwf). cbv zeta.
    unfold LogError_record. fold env.
    rewrite (fill_missing_even kvs) by done.
    by rewrite <- !app_assoc.
  - apply BaseLogger_Log_result.
  - rewrite app_assoc. apply record_get_last.
    rewrite <- !app_assoc.
    rewrite (even_app [_; _]) by done.
    rewrite even_app by (rewrite length_bindValues; by apply wf_even).
    rewrite (even_app [_; _; _; _]) by done.
    by rewrite length_bindValues.
  - apply bindValues_no_Valuer.
Qed.

(** C5: each [With] gives a new value whose accumulated keyvals are
    those of the receiver followed by the given ones, so that after a
    sequence of [With] calls they are the keyvals of the first value
    followed by those of every call in order (a sequence of odd
    length is completed with [ErrMissingValue]; an alternating one is
    taken as it is).  A value forked from the final one gets these
    followed by its own.  A record emitted at any level is the level,
    these keyvals with the deferred values bound, and the arguments of
    [Log]; in it the binding a key got in the latest call wins.  No
    call mutates its receiver: run on slices in memory, from a receiver
    that denotes the first value, the calls write to no array that
    existed before them, so the receiver still denotes the same value,
    its keyvals unchanged, and a later fork from it gets its keyvals
    followed by the new ones, whatever was forked before. *)
Theorem With_accumulates_keyvals (l : levels) (kvss : list (list value)) :
  wf (internalLogger l) = true →
  let final := foldl levels_With l kvss in
  let stored := keyvals (newContext (internalLogger l))
                ++ concat (fill_missing <$> kvss) in
  keyvals (newContext (internalLogger final)) = stored
  ∧ (Forall (λ kvs, Nat.even (length kvs) = true) kvss →
     stored = keyvals (newContext (internalLogger l)) ++ concat kvss)
  ∧ (∀ kvs, keyvals (newContext (internalLogger (levels_With final kvs)))
            = stored ++ fill_missing kvs)
  ∧ (∀ bound lv args stk o,
       (bound, lv) ∈ [(levels_Debug final, level.DebugValue);
                      (levels_Info final, level.InfoValue);
                      (levels_Warn final, level.WarnValue);
                      (levels_Error final, level.ErrorValue)] →
       log.Log bound args stk o
       = BaseLogger_Log (logger (newContext (internalLogger l)))
           ([level.Key; lv]
            ++ bindValues {| stack := bindValues_frame :: Log_frame :: stk;
                             now := clock o |} stored
            ++ fill_missing args) o)
  ∧ (∀ older kvs key v,
       kvss = older ++ [kvs] →
       record_get key (fill_missing kvs) = Some v →
       record_get key stored = Some v)
  ∧ (∀ (grow : nat → nat → nat) (h : gmap nat (list value)) (hl : mem.hlevels),
       mem.tight h (mem.hinternalLogger hl) →
       mem.abs_levels h hl = l →
       let r := mem.Withs_h grow h hl kvss in
       mem.abs_levels r.1 r.2 = final
       ∧ (∀ a, a ∈ dom h → r.1 !! a = h !! a)
       ∧ mem.abs_levels r.1 hl = l
       ∧ ∀ kvs, let r' := mem.levels_With_h grow r.1 hl kvs in
                mem.abs_levels r'.1 r'.2 = levels_With l kvs
                ∧ mem.abs_levels r'.1 hl = l).
Proof.
  intros Hwf final stored.
  destruct (levels_With_fold l kvss Hwf) as (Hwf' & Hlog & Hkvs).
  fold final in Hwf', Hlog, Hkvs. fold stored in Hkvs.
  split; [done|]. split; [|split; [|split; [|split]]]; cycle 4.
  { intros grow h hl Htight Habs r.
    destruct (mem_spec.Withs_h_spec grow h hl kvss Htight)
      as (Hfinal & _ & Hsame). fold r in Hfinal, Hsame.
    destruct (mem_spec.tight_preserved h r.1 _ Htight Hsame) as (Htight' & Hl').
    assert (mem.abs_levels r.1 hl = l) as Hkept.
    { rewrite <- Habs. unfold mem.abs_levels. by rewrite Hl'. }
    split; [by rewrite Hfinal, Habs|]. split; [done|]. split; [done|].
    intros kvs r'.
    destruct (mem_spec.With_h_spec grow r.1 (mem.hinternalLogger hl) kvs Htight')
      as (Hfork & _ & Hsame').
    split.
    - rewrite <- Hkept. unfold mem.abs_levels, levels_With, r'.
      cbn [mem.levels_With_h fst snd mem.hinternalLogger internalLogger].
      by rewrite Hfork.
    - destruct (mem_spec.tight_preserved r.1 r'.1 _ Htight' Hsame') as (_ & Hl'').
      rewrite <- Hkept. unfold mem.abs_levels. by rewrite Hl''. }
  - intros Heven. unfold stored. by rewrite fill_missing_all_even.
  - intros kvs. by rewrite levels_With_keyvals, Hkvs.
  - intros bound lv args stk o Hin.
    rewrite <- Hlog, <- Hkvs.
    decompose_list_elem_of; simplify_eq;
      by apply (leveled_Log_record (internalLogger final)).
  - intros older kvs key v -> Hget. unfold stored.
    rewrite fmap_app, concat_app. simpl. rewrite app_nil_r, app_assoc.
    rewrite record_get_app, Hget; [done|].
    rewrite even_app by (by apply wf_even).
    apply even_concat, Forall_fmap, Forall_forall.
    intros x _. apply even_fill_missing.
Qed.


(** C10: [Init] panics on every format other than the three it knows,
    and for each of those it returns normally with the matching
    logger installed under the three baseline keyvals. *)
Theorem Init_format_selection (format : Z) (stk : list Frame) (w : World) :
  (format ≠ FormatLogfmt → format ≠ FormatJson → format ≠ FormatNop →
   Init Sprintf format stk w
   = Panic ("invalid log format: " +:+ pretty format))
  ∧ (∀ sink,
       (format, sink) ∈ [(FormatLogfmt, LogfmtLogger);
                         (FormatJson, JSONLogger);
                         (FormatNop, NopLogger)] →
       ∃ w' l,
         Init Sprintf format stk w = Ok (tt, w')
         ∧ defaultFormat w' = format
         ∧ defaultLevels w' = Some l
         ∧ wf (internalLogger l) = true
         ∧ logger (newContext (internalLogger l)) = sink
         ∧ keyvals (newContext (internalLogger l))
           = [VString "timestamp"; DefaultTimestampUTC;
              VString "file"; caller Sprintf nominalStackDepth;
              VString "function"; function Sprintf nominalStackDepth]
         ∧ os w' = os w).
Proof.
  split.
  - intros H1 H2 H3. by apply Init_unrecognized.
  - intros sink Hin.
    assert ((format, sink) ∈ [(FormatJson, JSONLogger);
                              (FormatLogfmt, LogfmtLogger);
                              (FormatNop, NopLogger)]) as Hin'.
    { decompose_list_elem_of; simplify_eq; set_solver. }
    eexists _, _. split; [by apply Init_recognized|].
    by repeat split.
Qed.

End Runtime.

(** ** The claims at a concrete request *)

(** C1, as the claim has it, fails: with the default JSON logger that
    the package's [init] installs, and a standard output that takes the
    record, [LogError(boom, "k", "v")] returns nil, not [boom]; so it
    does with the no-op logger. *)
Lemma LogError_loses_error :
  returned ((init Sprintf_example;;
             LogError Sprintf_example (Some boom) [VString "k"; VString "v"])
              stack_example (world0 os_example))
  = Ok None
  ∧ returned ((Init Sprintf_example FormatNop;;
               LogError Sprintf_example (Some boom) [VString "k"; VString "v"])
                stack_example (world0 os_example))
    = Ok None
  ∧ returned ((init Sprintf_example;;
               LogError Sprintf_example (Some boom) [VString "k"; VString "v"])
                stack_example (world0 os_example))
    ≠ Ok (Some boom).
Proof.
  assert (returned ((init Sprintf_example;;
             LogError Sprintf_example (Some boom) [VString "k"; VString "v"])
              stack_example (world0 os_example)) = Ok None) as Hnil
    by reflexivity.
  split; [exact Hnil|]. split; [reflexivity|].
  rewrite Hnil. discriminate.
Qed.

Lemma LogError_returns_sink_result_witness :
  returned (LogError Sprintf_example (Some boom) [VString "k"; VString "v"]
              stack_example world_example)
  = Ok None.
Proof.
  destruct (LogError_returns_sink_result Sprintf_example (Some boom)
              [VString "k"; VString "v"] stack_example world_example
              levels_example)
    as (pre & env & Hrun & Hres & _).
  - reflexivity.
  - reflexivity.
  - reflexivity.
  - rewrite Hrun. unfold returned. rewrite Hres. reflexivity.
Defined.

Lemma With_accumulates_keyvals_witness :
  keyvals (newContext (internalLogger
    (foldl levels_With {| internalLogger := Base JSONLogger |}
       [[VString "a"; VInt 1]; [VString "b"; VInt 2]; [VString "a"; VInt 3]])))
  = [VString "a"; VInt 1; VString "b"; VInt 2; VString "a"; VInt 3]
  ∧ (mem.Withs_h mem.grow_example mem.heap_example mem.hlevels_example
       [[VString "a"; VInt 1]; [VString "b"]]).1 !! 5%nat
    = Some [VString "svc"; VString "users"].
Proof.
  split.
  - destruct (With_accumulates_keyvals {| internalLogger := Base JSONLogger |}
                [[VString "a"; VInt 1]; [VString "b"; VInt 2]; [VString "a"; VInt 3]])
      as (Hstored & _).
    + reflexivity.
    + exact Hstored.
  - destruct (With_accumulates_keyvals
                (mem.abs_levels mem.heap_example mem.hlevels_example)
                [[VString "a"; VInt 1]; [VString "b"]])
      as (_ & _ & _ & _ & _ & Hmem).
    + reflexivity.
    + destruct (Hmem mem.grow_example mem.heap_example mem.hlevels_example)
        as (_ & Hsame & _).
      * split; [reflexivity|]. vm_compute. lia.
      * reflexivity.
      * rewrite Hsame; [reflexivity|]. apply elem_of_dom. by eexists.
Defined.



Lemma Init_format_selection_witness :
  Init Sprintf_example 7 stack_example (world0 os_example)
  = Panic "invalid log format: 7"
  ∧ ∃ w' l, Init Sprintf_example FormatNop stack_example (world0 os_example)
            = Ok (tt, w')
            ∧ defaultLevels w' = Some l
            ∧ logger (newContext (internalLogger l)) = NopLogger.
Proof.
  split.
  - apply (proj1 (Init_format_selection Sprintf_example 7 stack_example
                    (world0 os_example))); vm_compute; discriminate.
  - destruct (proj2 (Init_format_selection Sprintf_example FormatNop
                       stack_example (world0 os_example)) NopLogger)
      as (w' & l & Hrun & _ & Hl & _ & Hsink & _).
    + vm_compute. right. right. left.
    + exists w', l. split; [exact Hrun|]. split; [exact Hl|exact Hsink].
Defined.

End logger_spec.


(** * Further properties of package fctx *)

Module fctx_more.
Import context fctx fctx_spec.

(** ** The resolution rule *)

Lemma MetricsTagsFromContext_nil (st : State) :
  svc st ≠ SvcUnset →
  MetricsTagsFromContext None st
  = Panic "runtime error: invalid memory address or nil pointer dereference".
Proof.
  intros Hsvc. rewrite MetricsTagsFromContext_step.
  unfold tag_step, NewContextKey, get_svc, lift, mbind, M_bind, mret, M_ret; simpl.
  by rewrite bool_decide_eq_false_2.
Qed.

(** When the extraction returns, the state is as before and the tags
    come in pairs. *)
Lemma MetricsTagsFromContext_Ok ctx st tags st' :
  MetricsTagsFromContext ctx st = Ok (tags, st') →
  st' = st ∧ Nat.even (length tags) = true.
Proof.
  destruct (decide (svc st = SvcUnset)) as [Hsvc|Hsvc].
  - rewrite MetricsTagsFromContext_unset by done. by intros [= <- <-].
  - destruct ctx as [c|].
    + rewrite MetricsTagsFromContext_set by done.
      destruct (ctxt_Value c _); intros [= <- <-]; done.
    + by rewrite MetricsTagsFromContext_nil.
Qed.

(** X3: with an identity set, the binding made last under the
    namespaced key decides; bindings under other keys and cancellation
    wrappers are looked through. *)
Theorem MetricsTagsFromContext_innermost
    (st : State) (c : ctxt) (s : string) (k : Key) (v : value) :
  svc st ≠ SvcUnset →
  MetricsTagsFromContext
    (Some (WithValue c (KeyCtx (svc st) ReqEndpoint) (VString s))) st
  = Ok (["endpoint"; s], st)
  ∧ (k ≠ KeyCtx (svc st) ReqEndpoint →
     MetricsTagsFromContext (Some (WithValue c k v)) st
     = MetricsTagsFromContext (Some c) st)
  ∧ MetricsTagsFromContext (Some (WithCancel c)) st
    = MetricsTagsFromContext (Some c) st.
Proof.
  intros Hsvc. rewrite !MetricsTagsFromContext_set by done. simpl.
  split; [by rewrite decide_True|]. split; [|done].
  intros Hk. by rewrite decide_False.
Qed.

Lemma MetricsTagsFromContext_innermost_witness :
  MetricsTagsFromContext
    (Some (WithValue (WithValue Background (KeyCtx 1 ReqEndpoint) (VString "ListUsers"))
             (KeyCtx 1 ReqEndpoint) (VString "GetUser")))
    st_service
  = Ok (["endpoint"; "GetUser"], st_service).
Proof.
  destruct (MetricsTagsFromContext_innermost st_service
              (WithValue Background (KeyCtx 1 ReqEndpoint) (VString "ListUsers"))
              "GetUser" (KeyOther "trace") VNil) as (H & _).
  - vm_compute. discriminate.
  - exact H.
Defined.

(** ** The loop, for any table of selected tags *)

(** X4: whatever entries the loop ranges over, when it returns it has
    appended exactly one name and one value per entry, the names in
    order at the even positions, and has left the state as it was. *)
Theorem range_tags_shape
    (ctx : Context) (entries : list (string * Z)) (tags tags' : list string)
    (st st' : State) :
  range_tags ctx entries tags st = Ok (tags', st') →
  st' = st
  ∧ ∃ vals, length vals = length entries
            ∧ tags' = tags ++ concat (zip_with (λ e val, [e.1; val]) entries vals).
Proof.
  revert tags. induction entries as [|e rest IH]; intros tags; simpl.
  - intros [= <- <-]. split; [done|]. exists []. by rewrite app_nil_r.
  - unfold mbind at 1, M_bind at 1.
    destruct (tag_step ctx tags e st) as [[tags1 st1]|msg] eqn:Hstep; [|done].
    assert (st1 = st ∧ ∃ val, tags1 = tags ++ [e.1; val]) as (-> & val & ->).
    { revert Hstep. unfold tag_step, NewContextKey, get_svc, lift, panic,
        mbind, M_bind, mret, M_ret; simpl.
      case_bool_decide.
      - intros [= <- <-]. split; [done|]. eexists. by rewrite <- app_assoc.
      - destruct (Value ctx _) as [val|]; [|done].
        destruct val; intros [= <- <-]; (split; [done|]);
          eexists; by rewrite <- app_assoc. }
    intros Hrest. apply IH in Hrest as (-> & vals & Hlen & ->).
    split; [done|]. exists (val :: vals). simpl. split; [by rewrite Hlen|].
    by rewrite <- app_assoc.
Qed.

Lemma range_tags_shape_witness :
  ∃ vals, length vals = 2%nat
          ∧ ["endpoint"; "GetUser"; "auth"; "unset"]
            = [] ++ concat (zip_with (λ (e : string * Z) val, [e.1; val])
                              [("endpoint", ReqEndpoint); ("auth", ReqAuth)] vals).
Proof.
  apply (range_tags_shape (ctx_GetUser st_service)
           [("endpoint", ReqEndpoint); ("auth", ReqAuth)] []
           ["endpoint"; "GetUser"; "auth"; "unset"] st_service st_service).
  reflexivity.
Defined.

(** ** Init, over a whole startup sequence *)

(** X5: of a sequence of [Init] calls only the first has an effect. *)
Theorem Inits_first_call_wins (name : string) (rest : list string) (st : State) :
  Inits (name :: rest) st = Init name st.
Proof.
  simpl. destruct (Init_fires name st) as (st1 & Hrun & Hfired & _).
  rewrite (bind_Ok _ _ _ _ _ Hrun), Hrun. clear Hrun.
  induction rest as [|n rest IH]; [done|]. simpl.
  destruct (Init_fires n st1) as (st2 & Hrun2 & _ & Hsame).
  rewrite (Hsame Hfired) in Hrun2.
  by rewrite (bind_Ok _ _ _ _ _ Hrun2).
Qed.

End fctx_more.


(** * Further properties of package logger *)

Module logger_more.
Import context log log_spec logger logger_spec.

Lemma set_os_id (w : World) : set_os w (os w) = w.
Proof. by destruct w. Qed.

Lemma in_fctx_id (w : World) :
  {| fctx_state := fctx_state w; defaultLevels := defaultLevels w;
     defaultFormat := defaultFormat w; stdlog_flags := stdlog_flags w;
     stdlog_output := stdlog_output w; os := os w |} = w.
Proof. by destruct w. Qed.

(** At depth three and beyond, a deferred call site is a frame of the
    function that called [Log], or of one above it. *)
Lemma Caller_above_Log (depth : Z) (f0 f1 f2 : Frame) (stk : list Frame) :
  3 ≤ depth < stack.max_int →
  stack.Caller depth (f0 :: f1 :: f2 :: stk) = stk !! Z.to_nat (depth - 3).
Proof.
  intros Hd. unfold stack.Caller. rewrite decide_False by lia.
  replace (Z.to_nat depth) with (S (S (S (Z.to_nat (depth - 3))))) by lia.
  reflexivity.
Qed.

Section Runtime.

Variable Sprintf : string → stack.Call → string.

(** ** WithContext *)

(** X6: [levels.WithContext] panics exactly when the tag extraction
    does.  Otherwise it changes nothing in the world and returns a
    well-formed value over the same underlying logger whose keyvals are
    the receiver's, then the call-site fields at
    [nominalStackDepth + 2], then the tags; the tags come in pairs, so
    no [ErrMissingValue] is ever filled in. *)
Theorem levels_WithContext_keyvals
    (l : levels) (ctx : Context) (stk : list Frame) (w : World) :
  wf (internalLogger l) = true →
  match fctx.MetricsTagsFromContext ctx (fctx_state w) with
  | Ok (tags, _) =>
      ∃ l', levels_WithContext Sprintf l ctx stk w = Ok (l', w)
            ∧ wf (internalLogger l') = true
            ∧ logger (newContext (internalLogger l'))
              = logger (newContext (internalLogger l))
            ∧ keyvals (newContext (internalLogger l'))
              = keyvals (newContext (internalLogger l))
                ++ [VString "caller"; caller Sprintf (nominalStackDepth + 2);
                    VString "function"; function Sprintf (nominalStackDepth + 2)]
                ++ (VString <$> tags)
  | Panic msg => levels_WithContext Sprintf l ctx stk w = Panic msg
  end.
Proof.
  intros Hwf.
  unfold levels_WithContext, mbind, M_bind, in_fctx.
  rewrite fctx_spec.LogTagsFromContext_fmap.
  destruct (fctx.MetricsTagsFromContext ctx (fctx_state w))
    as [[tags st']|msg] eqn:Hrun; [|done].
  apply fctx_more.MetricsTagsFromContext_Ok in Hrun as (-> & Heven).
  rewrite in_fctx_id. eexists. split; [reflexivity|].
  split; [by apply WithCustomDepth_wf|].
  split; [apply WithCustomDepth_logger|].
  rewrite WithCustomDepth_keyvals by done.
  rewrite fill_missing_even; [done|]. by rewrite length_fmap.
Qed.

(** X7: a record logged through [WithContext(ctx)] while no service
    identity is set (as it always is after [Init]) carries the tag
    ["endpoint"] with the value ["svc_unset"], for every context, and its
    [caller] and [function] fields are those of the frame two above the
    function that called [Log]. *)
Theorem WithContext_record
    (ctx : Context) (args : list value) (stk : list Frame)
    (w : World) (l : levels) :
  defaultLevels w = Some l →
  wf (internalLogger l) = true →
  fctx.svc (fctx_state w) = fctx.SvcUnset →
  let env := {| stack := bindValues_frame :: Log_frame :: stk;
                now := clock (os w) |} in
  let record :=
    [VString "level"; VLevel "info"]
    ++ bindValues env (keyvals (newContext (internalLogger l)))
    ++ [VString "caller"; VString (Sprintf "%+v" (stk !! 2%nat));
        VString "function"; VString (Sprintf "%n" (stk !! 2%nat));
        VString "endpoint"; VString "svc_unset"]
    ++ fill_missing args in
  let sink := logger (newContext (internalLogger l)) in
  (WithContext Sprintf ctx ≫= λ l', Log (levels_Info l') args) stk w
  = Ok ((BaseLogger_Log sink record (os w)).1,
        set_os w (BaseLogger_Log sink record (os w)).2).
Proof.
  intros Hl Hwf Hsvc env record sink.
  unfold WithContext, levels_WithContext, mbind, M_bind, get_defaultLevels, in_fctx.
  rewrite Hl, fctx_spec.LogTagsFromContext_fmap,
    fctx_spec.MetricsTagsFromContext_unset by done.
  rewrite in_fctx_id. unfold mret, M_ret, Log, levels_Info, level.Info.
  rewrite leveled_Log_record by (done || by apply WithCustomDepth_wf).
  rewrite WithCustomDepth_logger, WithCustomDepth_keyvals by done.
  rewrite bindValues_app by (by apply wf_even).
  by rewrite <- !app_assoc.
Qed.

(** ** WithCustomDepth *)

(** X8: a record logged, at any level, through
    [WithCustomDepth(depth, keyvals...)] with [depth] at least three and
    below the largest [int] has its [caller] and [function] fields taken
    from the frame [depth - 3] above the function that calls [Log] (the
    zero [Call] when the stack is not that deep); the fields are
    resolved when the record is logged, from the stack of that moment. *)
Theorem WithCustomDepth_resolves
    (l : levels) (depth : Z) (kvs args : list value)
    (stk : list Frame) (o : OS) (bound : Logger) (lv : value) :
  wf (internalLogger l) = true →
  3 ≤ depth < stack.max_int →
  (bound, lv) ∈ (let l' := levels_WithCustomDepth Sprintf l depth kvs in
                 [(levels_Debug l', level.DebugValue);
                  (levels_Info l', level.InfoValue);
                  (levels_Warn l', level.WarnValue);
                  (levels_Error l', level.ErrorValue)]) →
  let env := {| stack := bindValues_frame :: Log_frame :: stk;
                now := clock o |} in
  let frame := stk !! Z.to_nat (depth - 3) in
  log.Log bound args stk o
  = BaseLogger_Log (logger (newContext (internalLogger l)))
      ([level.Key; lv]
       ++ bindValues env (keyvals (newContext (internalLogger l)))
       ++ [VString "caller"; VString (Sprintf "%+v" frame);
           VString "function"; VString (Sprintf "%n" frame)]
       ++ bindValues env (fill_missing kvs)
       ++ fill_missing args) o.
Proof.
  intros Hwf Hd Hin env frame. cbv zeta in Hin.
  assert (log.Log (WithPrefix (internalLogger
            (levels_WithCustomDepth Sprintf l depth kvs)) [level.Key; lv])
            args stk o
          = BaseLogger_Log (logger (newContext (internalLogger l)))
              ([level.Key; lv]
               ++ bindValues env (keyvals (newContext (internalLogger l)))
               ++ [VString "caller"; VString (Sprintf "%+v" frame);
                   VString "function"; VString (Sprintf "%n" frame)]
               ++ bindValues env (fill_missing kvs)
               ++ fill_missing args) o) as Hrec.
  { rewrite leveled_Log_record; [|by apply WithCustomDepth_wf|].
    - rewrite WithCustomDepth_logger, WithCustomDepth_keyvals by done.
      rewrite bindValues_app by (by apply wf_even).
      rewrite (bindValues_app _ [_; _; _; _]) by done.
      simpl bindValues at 2. rewrite !Caller_above_Log by done.
      by rewrite <- !app_assoc.
    - decompose_list_elem_of; simplify_eq; done. }
  decompose_list_elem_of; simplify_eq; exact Hrec.
Qed.

(** ** The default logger *)

(** A record logged through one of the package-level accessors: the
    level, the keyvals of the default logger, the arguments. *)
Lemma accessor_record
    (accessor : M Logger) (lv : value) (args : list value)
    (stk : list Frame) (w : World) (l : levels) :
  (accessor, lv) ∈ [(Debug, level.DebugValue); (Info, level.InfoValue);
                    (Warn, level.WarnValue); (Error, level.ErrorValue)] →
  defaultLevels w = Some l →
  wf (internalLogger l) = true →
  let env := {| stack := bindValues_frame :: Log_frame :: stk;
                now := clock (os w) |} in
  let record := [level.Key; lv]
                ++ bindValues env (keyvals (newContext (internalLogger l)))
                ++ fill_missing args in
  let sink := logger (newContext (internalLogger l)) in
  (accessor ≫= λ lg, Log lg args) stk w
  = Ok ((BaseLogger_Log sink record (os w)).1,
        set_os w (BaseLogger_Log sink record (os w)).2).
Proof.
  intros Hin Hl Hwf env record sink.
  assert (∀ lg, lg = WithPrefix (internalLogger l) [level.Key; lv] →
            Log lg args stk w
            = Ok ((BaseLogger_Log sink record (os w)).1,
                  set_os w (BaseLogger_Log sink record (os w)).2)) as Hrec.
  { intros lg ->. unfold Log. rewrite leveled_Log_record; [done|done|].
    decompose_list_elem_of; simplify_eq; done. }
  decompose_list_elem_of; simplify_eq;
    unfold Debug, Info, Warn, Error, mbind, M_bind, get_defaultLevels;
    rewrite Hl; by apply Hrec.
Qed.

Lemma Init_result format sink stk w :
  (format, sink) ∈ [(FormatJson, JSONLogger); (FormatLogfmt, LogfmtLogger);
                    (FormatNop, NopLogger)] →
  ∃ w' l, Init Sprintf format stk w = Ok (tt, w')
          ∧ defaultLevels w' = Some l
          ∧ wf (internalLogger l) = true
          ∧ logger (newContext (internalLogger l)) = sink
          ∧ keyvals (newContext (internalLogger l))
            = [VString "timestamp"; DefaultTimestampUTC;
               VString "file"; caller Sprintf nominalStackDepth;
               VString "function"; function Sprintf nominalStackDepth]
          ∧ os w' = os w
          ∧ fctx_state w' = fctx_state w
          ∧ stdlog_flags w' = stdlog_flags w
          ∧ defaultFormat w' = format.
Proof.
  intros Hin. eexists _, _. split; [by apply Init_recognized|].
  by repeat split.
Qed.

(** X9: after [Init] with a recognized format, a record logged through
    [Debug()], [Info()], [Warn()] or [Error()] is handed to the logger of
    that format and consists of the level, the three baseline fields and
    the arguments of [Log]: the timestamp is the time of logging, and
    [file] and [function] are those of the function that called [Log]. *)
Theorem Init_baseline_record
    (format : Z) (sink : BaseLogger) (stk0 : list Frame) (w : World) :
  (format, sink) ∈ [(FormatJson, JSONLogger); (FormatLogfmt, LogfmtLogger);
                    (FormatNop, NopLogger)] →
  ∃ w1,
    Init Sprintf format stk0 w = Ok (tt, w1)
    ∧ ∀ accessor lv args stk,
        (accessor, lv) ∈ [(Debug, VLevel "debug"); (Info, VLevel "info");
                          (Warn, VLevel "warn"); (Error, VLevel "error")] →
        let record :=
          [VString "level"; lv;
           VString "timestamp"; VTime (clock (os w));
           VString "file"; VString (Sprintf "%+v" (stk !! 0%nat));
           VString "function"; VString (Sprintf "%n" (stk !! 0%nat))]
          ++ fill_missing args in
        (accessor ≫= λ lg, Log lg args) stk w1
        = Ok ((BaseLogger_Log sink record (os w)).1,
              set_os w1 (BaseLogger_Log sink record (os w)).2).
Proof.
  intros Hin.
  destruct (Init_result format sink stk0 w Hin)
    as (w1 & l & Hrun & Hl & Hwf & Hsink & Hkvs & Hos & _).
  exists w1. split; [done|].
  intros accessor lv args stk Hacc record.
  rewrite (accessor_record accessor lv args stk w1 l Hacc Hl Hwf).
  by rewrite Hsink, Hkvs, Hos.
Qed.

Lemma Init_depends format stk stk' w w' :
  fctx_state w = fctx_state w' →
  stdlog_flags w = stdlog_flags w' →
  os w = os w' →
  Init Sprintf format stk w = Init Sprintf format stk' w'.
Proof.
  intros H1 H2 H3.
  assert (∀ sink,
    (format, sink) ∈ [(FormatJson, JSONLogger); (FormatLogfmt, LogfmtLogger);
                      (FormatNop, NopLogger)] →
    Init Sprintf format stk w = Init Sprintf format stk' w') as Hrec.
  { intros sink Hin.
    pose proof (Init_recognized Sprintf format sink stk w Hin) as Ha.
    pose proof (Init_recognized Sprintf format sink stk' w' Hin) as Hb.
    cbv zeta in Ha, Hb. by rewrite Ha, Hb, H1, H2, H3. }
  destruct (decide (format = FormatJson)) as [->|?];
    [apply (Hrec JSONLogger); set_solver|].
  destruct (decide (format = FormatLogfmt)) as [->|?];
    [apply (Hrec LogfmtLogger); set_solver|].
  destruct (decide (format = FormatNop)) as [->|?];
    [apply (Hrec NopLogger); set_solver|].
  by rewrite !Init_unrecognized.
Qed.

(** X10: [Init] rebuilds the default logger from scratch.  Keyvals added
    with [AddDefaultKeyvals] before it are gone, and of two [Init] calls
    the later one decides: the outcome is that of the last [Init]
    alone. *)
Theorem Init_discards_defaults
    (format : Z) (kvs : list value) (stk : list Frame) (w : World) (l : levels) :
  defaultLevels w = Some l →
  (AddDefaultKeyvals kvs;; Init Sprintf format) stk w = Init Sprintf format stk w
  ∧ ∀ format0 sink0,
      (format0, sink0) ∈ [(FormatJson, JSONLogger); (FormatLogfmt, LogfmtLogger);
                          (FormatNop, NopLogger)] →
      (Init Sprintf format0;; Init Sprintf format) stk w
      = Init Sprintf format stk w.
Proof.
  intros Hl. split.
  - unfold mbind at 1, M_bind at 1.
    unfold AddDefaultKeyvals, mbind, M_bind, get_defaultLevels. rewrite Hl. simpl.
    by apply Init_depends.
  - intros format0 sink0 Hin. unfold mbind at 1, M_bind at 1.
    destruct (Init_result format0 sink0 stk w Hin)
      as (w1 & l1 & -> & _ & _ & _ & _ & Hos & Hst & Hflags & _).
    by apply Init_depends.
Qed.

(** ** AddDefaultKeyvals *)

Lemma With_With l kvs1 kvs2 :
  wf l = true →
  Nat.even (length kvs1) = true →
  log.With (log.With l kvs1) kvs2 = log.With l (kvs1 ++ kvs2).
Proof.
  intros Hwf Heven. pose proof (wf_even _ Hwf) as Hkv.
  destruct kvs1 as [|k1 kvs1]; [done|].
  destruct kvs2 as [|k2 kvs2]; [by rewrite app_nil_r|].
  unfold log.With at 1 3. cbn [app]. unfold log.With.
  cbn [newContext logger keyvals hasValuer].
  rewrite (fill_missing_even (_ ++ k1 :: kvs1)) by (by rewrite even_app).
  rewrite <- app_assoc.
  change (k1 :: kvs1 ++ k2 :: kvs2) with ((k1 :: kvs1) ++ k2 :: kvs2).
  by rewrite (containsValuer_app (k1 :: kvs1)), orb_assoc.
Qed.

Lemma AddDefaultKeyvals_run kvs stk w l :
  defaultLevels w = Some l →
  AddDefaultKeyvals kvs stk w =
    Ok (tt, {| fctx_state := fctx_state w;
               defaultLevels := Some (levels_With l kvs);
               defaultFormat := defaultFormat w;
               stdlog_flags := stdlog_flags w;
               stdlog_output :=
                 Some (levels_Info
                         (levels_With (levels_With l kvs)
                            [VString "function"; VString "stdlibLoggerRedirect"]));
               os := os w |}).
Proof.
  intros Hl.
  unfold AddDefaultKeyvals, mbind, M_bind, get_defaultLevels. by rewrite Hl.
Qed.

(** X11: adding default keyvals in two calls is the same as adding them
    in one, when the first call passes whole pairs. *)
Theorem AddDefaultKeyvals_compose
    (kvs1 kvs2 : list value) (stk : list Frame) (w : World) (l : levels) :
  defaultLevels w = Some l →
  wf (internalLogger l) = true →
  Nat.even (length kvs1) = true →
  (AddDefaultKeyvals kvs1;; AddDefaultKeyvals kvs2) stk w
  = AddDefaultKeyvals (kvs1 ++ kvs2) stk w.
Proof.
  intros Hl Hwf Heven. unfold mbind at 1, M_bind at 1.
  rewrite (AddDefaultKeyvals_run kvs1 stk w l Hl).
  rewrite (AddDefaultKeyvals_run kvs2 stk _ (levels_With l kvs1))
    by reflexivity.
  rewrite (AddDefaultKeyvals_run (kvs1 ++ kvs2) stk w l Hl).
  cbn [fctx_state defaultFormat stdlog_flags os].
  assert (levels_With (levels_With l kvs1) kvs2 = levels_With l (kvs1 ++ kvs2))
    as ->; [|done].
  unfold levels_With; cbn [internalLogger]. by rewrite With_With.
Qed.

(** X12: keyvals added with [AddDefaultKeyvals] are on every later
    record: a following [LogError] hands the logger a record with them
    between the earlier default keyvals and the call-site fields.
    Keyvals bound with the package-level [With] are not kept: a
    [LogError] after [With] behaves as one without it. *)
Theorem AddDefaultKeyvals_sticks
    (added kvs : list value) (err : option error) (stk : list Frame)
    (w : World) (l : levels) :
  defaultLevels w = Some l →
  wf (internalLogger l) = true →
  let env := {| stack := bindValues_frame :: Log_frame
                         :: PkgFrame "LogError" 126 :: stk;
                now := clock (os w) |} in
  let record :=
    [VString "level"; VLevel "error"]
    ++ bindValues env (keyvals (newContext (internalLogger l)))
    ++ bindValues env (fill_missing added)
    ++ [VString "caller"; VString (Sprintf "%+v" (stk !! 0%nat));
        VString "function"; VString (Sprintf "%n" (stk !! 0%nat))]
    ++ bindValues env (fill_missing kvs)
    ++ [VString "err"; of_error err] in
  let sink := logger (newContext (internalLogger l)) in
  (∃ w', AddDefaultKeyvals added stk w = Ok (tt, w')
         ∧ (AddDefaultKeyvals added;; LogError Sprintf err kvs) stk w
           = Ok ((BaseLogger_Log sink record (os w)).1,
                 set_os w' (BaseLogger_Log sink record (os w)).2))
  ∧ (With added ≫= λ _, LogError Sprintf err kvs) stk w
    = LogError Sprintf err kvs stk w.
Proof.
  intros Hl Hwf env record sink. split.
  - eexists. split; [by apply AddDefaultKeyvals_run|].
    unfold mbind at 1, M_bind at 1.
    rewrite (AddDefaultKeyvals_run added stk w l Hl).
    rewrite (LogError_run Sprintf err kvs stk _ (levels_With l added))
      by (reflexivity || by apply With_wf).
    cbv zeta. cbn [os]. unfold LogError_record.
    rewrite levels_With_keyvals by done.
    unfold levels_With; cbn [internalLogger]. rewrite With_logger.
    rewrite bindValues_app by (by apply wf_even).
    by rewrite <- !app_assoc.
  - unfold With, mbind, M_bind, get_defaultLevels. by rewrite Hl.
Qed.

(** X13: [AddDefaultKeyvals] points the standard library's logger at an
    adapter over the updated default logger: bound to the Info level,
    carrying all default keyvals, and with the [function] field pinned
    to the marker ["stdlibLoggerRedirect"], which is the last binding of
    that key. *)
Theorem AddDefaultKeyvals_redirects
    (kvs : list value) (stk : list Frame) (w : World) (l : levels) :
  defaultLevels w = Some l →
  wf (internalLogger l) = true →
  ∃ w' adapter,
    AddDefaultKeyvals kvs stk w = Ok (tt, w')
    ∧ stdlog_output w' = Some adapter
    ∧ wf adapter = true
    ∧ logger (newContext adapter) = logger (newContext (internalLogger l))
    ∧ keyvals (newContext adapter)
      = [VString "level"; VLevel "info"]
        ++ keyvals (newContext (internalLogger l))
        ++ fill_missing kvs
        ++ [VString "function"; VString "stdlibLoggerRedirect"]
    ∧ record_get "function" (keyvals (newContext adapter))
      = Some (VString "stdlibLoggerRedirect").
Proof.
  intros Hl Hwf. eexists _, _.
  split; [by apply AddDefaultKeyvals_run|]. split; [reflexivity|].
  assert (wf (internalLogger (levels_With l kvs)) = true) as Hwf1
    by (by apply With_wf).
  assert (keyvals (newContext (levels_Info
            (levels_With (levels_With l kvs)
               [VString "function"; VString "stdlibLoggerRedirect"])))
          = [VString "level"; VLevel "info"]
            ++ keyvals (newContext (internalLogger l))
            ++ fill_missing kvs
            ++ [VString "function"; VString "stdlibLoggerRedirect"]) as Hkvs.
  { unfold levels_Info, level.Info. rewrite WithPrefix_keyvals.
    rewrite !levels_With_keyvals by done.
    by rewrite <- !app_assoc. }
  split; [|split; [|split; [exact Hkvs|]]].
  - unfold levels_Info, level.Info. apply WithPrefix_wf.
    by apply (With_wf (internalLogger (levels_With l kvs))).
  - unfold levels_Info, level.Info, levels_With; cbn [internalLogger].
    by rewrite WithPrefix_logger, !With_logger.
  - rewrite Hkvs, !app_assoc. apply record_get_last.
    rewrite <- !app_assoc, (even_app [_; _]) by done.
    rewrite even_app by (by apply wf_even). apply even_fill_missing.
Qed.

(** ** What LogError touches *)

Lemma BaseLogger_Log_frame sink record o :
  let r := BaseLogger_Log sink record o in
  clock r.2 = clock o
  ∧ write_fault r.2 = write_fault o
  ∧ (∀ e, r.1 = Some e → r.2 = o)
  ∧ ∃ written, stdout r.2 = stdout o ++ written ∧ (length written ≤ 1)%nat.
Proof.
  assert (∃ written : list (Encoding * list value),
            stdout o = stdout o ++ written ∧ (length written ≤ 1)%nat) as Hnone.
  { exists []. rewrite app_nil_r. simpl. split; [done|lia]. }
  destruct sink; simpl; [| |by repeat split]; unfold write;
    destruct (write_fault o _ record); simpl;
    repeat split; try done;
    eexists [_]; (split; [reflexivity|simpl; lia]).
Qed.

(** X14: [LogError] returns normally once the default logger is in
    place, and touches nothing but standard output: the package
    variables, the registry state and the settings of the standard
    library's logger stay as they were.  Standard output only grows, by
    at most one record, and by none when an error is returned. *)
Theorem LogError_frame
    (err : option error) (kvs : list value) (stk : list Frame) (w : World) :
  initialized w = true →
  ∃ r w',
    LogError Sprintf err kvs stk w = Ok (r, w')
    ∧ fctx_state w' = fctx_state w
    ∧ defaultLevels w' = defaultLevels w
    ∧ defaultFormat w' = defaultFormat w
    ∧ stdlog_flags w' = stdlog_flags w
    ∧ stdlog_output w' = stdlog_output w
    ∧ (∀ e, r = Some e → w' = w)
    ∧ ∃ written, stdout (os w') = stdout (os w) ++ written
                 ∧ (length written ≤ 1)%nat.
Proof.
  unfold initialized. destruct (defaultLevels w) as [l|] eqn:Hl; [|done].
  intros Hwf. eexists _, _.
  split; [by apply LogError_run|]. cbv zeta.
  destruct (BaseLogger_Log_frame (logger (newContext (internalLogger l)))
              (LogError_record Sprintf l err kvs stk (os w)) (os w))
    as (_ & _ & Hfault & Hout).
  repeat (split; [done|]). split; [|exact Hout].
  intros e He. rewrite (Hfault e He). apply set_os_id.
Qed.

(** X15: with the no-op logger underneath, nothing is observable:
    [LogError] returns nil and a record logged through any of the level
    accessors returns nil, and both leave the world exactly as it was. *)
Theorem NopLogger_is_silent
    (err : option error) (kvs args : list value) (stk : list Frame)
    (w : World) (l : levels) :
  defaultLevels w = Some l →
  wf (internalLogger l) = true →
  logger (newContext (internalLogger l)) = NopLogger →
  LogError Sprintf err kvs stk w = Ok (None, w)
  ∧ ∀ accessor, accessor ∈ [Debug; Info; Warn; Error] →
                (accessor ≫= λ lg, Log lg args) stk w = Ok (None, w).
Proof.
  intros Hl Hwf Hsink. split.
  - rewrite (LogError_run Sprintf err kvs stk w l Hl Hwf). cbv zeta.
    rewrite Hsink. simpl. by rewrite set_os_id.
  - intros accessor Hin.
    assert (∃ lv, (accessor, lv) ∈ [(Debug, level.DebugValue);
                                    (Info, level.InfoValue);
                                    (Warn, level.WarnValue);
                                    (Error, level.ErrorValue)]) as [lv Hacc].
    { decompose_list_elem_of;
        [exists level.DebugValue|exists level.InfoValue
        |exists level.WarnValue|exists level.ErrorValue]; set_solver. }
    rewrite (accessor_record accessor lv args stk w l Hacc Hl Hwf).
    rewrite Hsink. simpl. by rewrite set_os_id.
Qed.

(** X16: the format chooses the encoding and nothing else.  After
    [Init(FormatJson)] and after [Init(FormatLogfmt)], the same
    [LogError] call appends the same record to standard output, tagged
    with the encoding of the format. *)
Theorem record_independent_of_format
    (err : option error) (kvs : list value) (stk0 stk : list Frame) (w : World) :
  ∃ record,
    ∀ format enc,
      (format, enc) ∈ [(FormatJson, JSON); (FormatLogfmt, Logfmt)] →
      write_fault (os w) enc record = None →
      ∃ w1 w2,
        Init Sprintf format stk0 w = Ok (tt, w1)
        ∧ LogError Sprintf err kvs stk w1 = Ok (None, w2)
        ∧ stdout (os w2) = stdout (os w) ++ [(enc, record)].
Proof.
  exists (LogError_record Sprintf
            (levels_With {| internalLogger := Base NopLogger |}
               [VString "timestamp"; DefaultTimestampUTC;
                VString "file"; caller Sprintf nominalStackDepth;
                VString "function"; function Sprintf nominalStackDepth])
            err kvs stk (os w)).
  intros format enc Hin Hok.
  assert (∃ sink, (format, sink) ∈ [(FormatJson, JSONLogger);
                                    (FormatLogfmt, LogfmtLogger);
                                    (FormatNop, NopLogger)]
                  ∧ (sink, enc) ∈ [(JSONLogger, JSON); (LogfmtLogger, Logfmt)])
    as (sink & Hfmt & Henc).
  { decompose_list_elem_of; simplify_eq;
      [exists JSONLogger|exists LogfmtLogger]; split; set_solver. }
  pose proof (Init_recognized Sprintf format sink stk0 w Hfmt) as Hrun.
  cbv zeta in Hrun. eexists _, _. split; [exact Hrun|].
  rewrite (LogError_run Sprintf err kvs stk _
             (levels_With {| internalLogger := Base sink |}
                [VString "timestamp"; DefaultTimestampUTC;
                 VString "file"; caller Sprintf nominalStackDepth;
                 VString "function"; function Sprintf nominalStackDepth]))
    by reflexivity.
  cbv zeta. cbn [os].
  change (LogError_record Sprintf
            (levels_With {| internalLogger := Base sink |} _) err kvs stk (os w))
    with (LogError_record Sprintf
            (levels_With {| internalLogger := Base NopLogger |}
               [VString "timestamp"; DefaultTimestampUTC;
                VString "file"; caller Sprintf nominalStackDepth;
                VString "function"; function Sprintf nominalStackDepth])
            err kvs stk (os w)).
  change (logger (newContext (internalLogger
            (levels_With {| internalLogger := Base sink |}
               [VString "timestamp"; DefaultTimestampUTC;
                VString "file"; caller Sprintf nominalStackDepth;
                VString "function"; function Sprintf nominalStackDepth]))))
    with sink.
  split.
  - rewrite BaseLogger_Log_result. clear Hin Hfmt Hrun.
    apply elem_of_cons in Henc as [Heq|Henc];
      [|apply list_elem_of_singleton in Henc as Heq];
      injection Heq as -> ->; by rewrite Hok.
  - cbn [os set_os]. by apply BaseLogger_Log_stdout.
Qed.

(** ** The LogError method *)

(** X17: the method [levels.LogError] logs through its receiver: it
    returns what the underlying logger returns (nil from the no-op
    logger, the fault of encoding and writing otherwise), not [err], and
    for an alternating sequence the record it hands over ends with the
    given keyvals and the pair ["err"], [err]. *)
Theorem levels_LogError_sink_result
    (l : levels) (err : option error) (kvs : list value)
    (stk : list Frame) (w : World) :
  wf (internalLogger l) = true →
  Nat.even (length kvs) = true →
  ∃ pre env,
    let record := pre ++ bindValues env kvs ++ [VString "err"; of_error err] in
    let sink := logger (newContext (internalLogger l)) in
    levels_LogError Sprintf l err kvs stk w
    = Ok ((BaseLogger_Log sink record (os w)).1,
          set_os w (BaseLogger_Log sink record (os w)).2)
    ∧ (BaseLogger_Log sink record (os w)).1
      = match sink with
        | JSONLogger => write_fault (os w) JSON record
        | LogfmtLogger => write_fault (os w) Logfmt record
        | NopLogger => None
        end
    ∧ record_get "err" record = Some (of_error err).
Proof.
  intros Hwf Hkvs.
  set (env := {| stack := bindValues_frame :: Log_frame
                          :: PkgFrame "levels.LogError" 191 :: stk;
                 now := clock (os w) |}).
  exists ([level.Key; level.ErrorValue]
          ++ bindValues env (keyvals (newContext (internalLogger l)))
          ++ bindValues env [VString "caller"; caller Sprintf (nominalStackDepth + 2);
                             VString "function"; function Sprintf (nominalStackDepth + 2)]),
         env.
  cbv zeta. split; [|split].
  - unfold levels_LogError, call, Log, levels_Error, level.Error.
    rewrite leveled_Log_record by (done || by apply WithCustomDepth_wf).
    rewrite WithCustomDepth_logger, WithCustomDepth_keyvals by done.
    rewrite bindValues_app by (by apply wf_even).
    rewrite (bindValues_app _ [_; _; _; _]) by done.
    rewrite (fill_missing_even kvs), (fill_missing_even [_; _]) by done.
    fold env. by rewrite <- !app_assoc.
  - apply BaseLogger_Log_result.
  - rewrite app_assoc. apply record_get_last.
    rewrite <- !app_assoc.
    rewrite (even_app [_; _]) by done.
    rewrite even_app by (rewrite length_bindValues; by apply wf_even).
    rewrite even_app by (by rewrite length_bindValues).
    by rewrite length_bindValues.
Qed.

(** ** The default logger is always in place *)

(** X18: the package's [init] function puts a well-formed default
    logger in place, with the JSON format and long file names for the
    standard library's logger; and from then on [Init] with a recognized
    format, [AddDefaultKeyvals] and [LogError] return normally and keep
    one in place, while [With], [WithCustomDepth] and the four level
    accessors return normally without changing the world.  None of them
    can hit a nil default logger. *)
Theorem default_logger_in_place (o : OS) (w : World) (stk : list Frame) :
  (∃ w0, init Sprintf stk (world0 o) = Ok (tt, w0)
         ∧ initialized w0 = true
         ∧ defaultFormat w0 = FormatJson
         ∧ stdlog_flags w0 = Llongfile)
  ∧ (initialized w = true →
     (∀ format, format ∈ [FormatLogfmt; FormatJson; FormatNop] →
                ∃ w', Init Sprintf format stk w = Ok (tt, w')
                      ∧ initialized w' = true)
     ∧ (∀ kvs, ∃ w', AddDefaultKeyvals kvs stk w = Ok (tt, w')
                     ∧ initialized w' = true)
     ∧ (∀ err kvs, ∃ r w', LogError Sprintf err kvs stk w = Ok (r, w')
                           ∧ initialized w' = true)
     ∧ (∀ kvs, ∃ l', With kvs stk w = Ok (l', w)
                     ∧ wf (internalLogger l') = true)
     ∧ (∀ depth kvs, ∃ l', WithCustomDepth Sprintf depth kvs stk w = Ok (l', w)
                           ∧ wf (internalLogger l') = true)
     ∧ (∀ accessor, accessor ∈ [Debug; Info; Warn; Error] →
                    ∃ lg, accessor stk w = Ok (lg, w) ∧ wf lg = true)).
Proof.
  split.
  - pose proof (Init_recognized Sprintf FormatJson JSONLogger stk
                  {| fctx_state := fctx.st0; defaultLevels := None;
                     defaultFormat := FormatJson; stdlog_flags := Llongfile;
                     stdlog_output := None; os := o |}) as Hrun.
    cbv zeta in Hrun. eexists. split; [apply Hrun; set_solver|].
    by repeat split.
  - unfold initialized at 1.
    destruct (defaultLevels w) as [l|] eqn:Hl; [|done]. intros Hwf.
    split; [|split; [|split; [|split; [|split]]]].
    + intros format Hin.
      assert (∃ sink, (format, sink) ∈ [(FormatJson, JSONLogger);
                                        (FormatLogfmt, LogfmtLogger);
                                        (FormatNop, NopLogger)]) as [sink Hfmt].
      { decompose_list_elem_of;
          [exists LogfmtLogger|exists JSONLogger|exists NopLogger]; set_solver. }
      destruct (Init_result format sink stk w Hfmt)
        as (w' & l' & Hrun & Hl' & Hwf' & _).
      exists w'. split; [done|]. unfold initialized. by rewrite Hl'.
    + intros kvs. eexists. split; [by apply AddDefaultKeyvals_run|].
      unfold initialized; cbn [defaultLevels]. by apply With_wf.
    + intros err kvs. eexists _, _.
      split; [by apply LogError_run|].
      unfold initialized, set_os. simpl. by rewrite Hl.
    + intros kvs. eexists.
      unfold With, mbind, M_bind, get_defaultLevels. rewrite Hl.
      split; [reflexivity|]. by apply With_wf.
    + intros depth kvs. eexists.
      unfold WithCustomDepth, mbind, M_bind, get_defaultLevels. rewrite Hl.
      split; [reflexivity|]. by apply WithCustomDepth_wf.
    + intros accessor Hin.
      decompose_list_elem_of; subst; eexists;
        unfold Debug, Info, Warn, Error, mbind, M_bind, get_defaultLevels;
        rewrite Hl; (split; [reflexivity|]);
        unfold levels_Debug, levels_Info, levels_Warn, levels_Error,
          level.Debug, level.Info, level.Warn, level.Error;
        by apply WithPrefix_wf.
Qed.

End Runtime.

Lemma LogError_frame_witness :
  ∃ r w', LogError Sprintf_example (Some boom) [VString "k"; VString "v"]
            stack_example world_example = Ok (r, w')
          ∧ defaultLevels w' = defaultLevels world_example
          ∧ ∃ written, stdout (os w') = stdout (os world_example) ++ written
                       ∧ (length written ≤ 1)%nat.
Proof.
  destruct (LogError_frame Sprintf_example (Some boom)
              [VString "k"; VString "v"] stack_example world_example)
    as (r & w' & Hrun & _ & Hl & _ & _ & _ & _ & Hout).
  - reflexivity.
  - exists r, w'. split; [exact Hrun|]. split; [exact Hl|exact Hout].
Defined.

Lemma NopLogger_is_silent_witness :
  LogError Sprintf_example (Some boom) [VString "k"; VString "v"]
    stack_example world_nop = Ok (None, world_nop).
Proof.
  apply (NopLogger_is_silent Sprintf_example (Some boom)
           [VString "k"; VString "v"] [] stack_example world_nop levels_nop);
    reflexivity.
Defined.

Lemma record_independent_of_format_witness :
  ∃ record w1 w2,
    Init Sprintf_example FormatLogfmt [] world_example = Ok (tt, w1)
    ∧ LogError Sprintf_example (Some boom) [] stack_example w1 = Ok (None, w2)
    ∧ stdout (os w2) = stdout (os world_example) ++ [(Logfmt, record)].
Proof.
  destruct (record_independent_of_format Sprintf_example (Some boom) []
              [] stack_example world_example) as (record & Hrec).
  destruct (Hrec FormatLogfmt Logfmt) as (w1 & w2 & H1 & H2 & H3).
  - vm_compute. right. left.
  - reflexivity.
  - exists record, w1, w2. split; [exact H1|]. split; [exact H2|exact H3].
Defined.

Lemma levels_LogError_sink_result_witness :
  returned (levels_LogError Sprintf_example levels_example (Some boom)
              [VString "k"; VString "v"] stack_example world_example)
  = Ok None.
Proof.
  destruct (levels_LogError_sink_result Sprintf_example levels_example
              (Some boom) [VString "k"; VString "v"] stack_example world_example)
    as (pre & env & Hrun & Hres & _).
  - reflexivity.
  - reflexivity.
  - rewrite Hrun. unfold returned. rewrite Hres. reflexivity.
Defined.

Lemma default_logger_in_place_witness :
  ∃ w', AddDefaultKeyvals [VString "region"; VString "eu"]
          stack_example world_example = Ok (tt, w')
        ∧ initialized w' = true.
Proof.
  destruct (proj2 (default_logger_in_place Sprintf_example os_example
                     world_example stack_example)) as (_ & Hadd & _).
  - reflexivity.
  - exact (Hadd [VString "region"; VString "eu"]).
Defined.

Lemma AddDefaultKeyvals_compose_witness :
  (AddDefaultKeyvals [VString "region"; VString "eu"];;
   AddDefaultKeyvals [VString "build"; VInt 7]) stack_example world_example
  = AddDefaultKeyvals [VString "region"; VString "eu"; VString "build"; VInt 7]
      stack_example world_example.
Proof.
  apply (AddDefaultKeyvals_compose [VString "region"; VString "eu"]
           [VString "build"; VInt 7] stack_example world_example levels_example);
    reflexivity.
Defined.

Lemma AddDefaultKeyvals_sticks_witness :
  ∃ w', (AddDefaultKeyvals [VString "region"; VString "eu"];;
         LogError Sprintf_example (Some boom) [])
          stack_example world_example = Ok (None, w')
        ∧ stdout (os w')
          = [(JSON,
              [VString "level"; VLevel "error";
               VString "timestamp"; VTime 1700000000;
               VString "file"; VString "logger.go:126";
               VString "function"; VString "LogError";
               VString "region"; VString "eu";
               VString "caller"; VString "users/handler.go:42";
               VString "function"; VString "GetUser";
               VString "err"; VError boom])].
Proof.
  destruct (AddDefaultKeyvals_sticks Sprintf_example
              [VString "region"; VString "eu"] [] (Some boom) stack_example
              world_example levels_example eq_refl eq_refl)
    as ((w' & _ & Hrun) & _).
  eexists. split; [rewrite Hrun; reflexivity|reflexivity].
Defined.

Lemma AddDefaultKeyvals_redirects_witness :
  ∃ w' adapter,
    AddDefaultKeyvals [VString "region"; VString "eu"] stack_example world_example
    = Ok (tt, w')
    ∧ stdlog_output w' = Some adapter
    ∧ record_get "function" (keyvals (newContext adapter))
      = Some (VString "stdlibLoggerRedirect").
Proof.
  destruct (AddDefaultKeyvals_redirects
              [VString "region"; VString "eu"] stack_example world_example
              levels_example eq_refl eq_refl)
    as (w' & adapter & Hrun & Hout & _ & _ & _ & Hget).
  exists w', adapter. split; [exact Hrun|]. split; [exact Hout|exact Hget].
Defined.

Lemma Init_discards_defaults_witness :
  (AddDefaultKeyvals [VString "region"; VString "eu"];;
   Init Sprintf_example FormatLogfmt) stack_example world_example
  = Init Sprintf_example FormatLogfmt stack_example world_example.
Proof.
  apply (Init_discards_defaults Sprintf_example FormatLogfmt
           [VString "region"; VString "eu"] stack_example world_example
           levels_example).
  reflexivity.
Defined.

Lemma Init_baseline_record_witness :
  ∃ w1 w2,
    Init Sprintf_example FormatLogfmt [] (world0 os_example) = Ok (tt, w1)
    ∧ (Warn ≫= λ lg, Log lg [VString "msg"; VString "slow"]) stack_example w1
      = Ok (None, w2)
    ∧ stdout (os w2)
      = [(Logfmt,
          [VString "level"; VLevel "warn";
           VString "timestamp"; VTime 1700000000;
           VString "file"; VString "users/handler.go:42";
           VString "function"; VString "GetUser";
           VString "msg"; VString "slow"])].
Proof.
  destruct (Init_baseline_record Sprintf_example FormatLogfmt LogfmtLogger []
              (world0 os_example)) as (w1 & Hrun & Hrec).
  - vm_compute. right. left.
  - exists w1. eexists. split; [exact Hrun|]. split.
    + rewrite (Hrec Warn (VLevel "warn") [VString "msg"; VString "slow"]
                 stack_example); [reflexivity|].
      vm_compute. right. right. left.
    + reflexivity.
Defined.

Lemma levels_WithContext_keyvals_witness :
  ∃ l', levels_WithContext Sprintf_example levels_example
          (fctx.ctx_GetUser fctx.st0) stack_example world_example
        = Ok (l', world_example)
        ∧ keyvals (newContext (internalLogger l'))
          = keyvals (newContext (internalLogger levels_example))
            ++ [VString "caller"; caller Sprintf_example (nominalStackDepth + 2);
                VString "function"; function Sprintf_example (nominalStackDepth + 2)]
            ++ [VString "endpoint"; VString "svc_unset"].
Proof.
  pose proof (levels_WithContext_keyvals Sprintf_example levels_example
                (fctx.ctx_GetUser fctx.st0) stack_example world_example eq_refl)
    as H.
  change (fctx.MetricsTagsFromContext (fctx.ctx_GetUser fctx.st0)
            (fctx_state world_example))
    with (Ok (["endpoint"; "svc_unset"], fctx.st0) : Result (list string * fctx.State)) in H.
  destruct H as (l' & Hrun & _ & _ & Hkvs).
  exists l'. split; [exact Hrun|exact Hkvs].
Defined.

Lemma WithContext_record_witness :
  ∃ w', (WithContext Sprintf_example (fctx.ctx_GetUser fctx.st0)
           ≫= λ l', Log (levels_Info l') [VString "msg"; VString "hello"])
          [HostFrame "users/store.go:7" "load";
           HostFrame "users/handler.go:42" "GetUser";
           HostFrame "main.go:10" "main"] world_example
        = Ok (None, w')
        ∧ stdout (os w')
          = [(JSON,
              [VString "level"; VLevel "info";
               VString "timestamp"; VTime 1700000000;
               VString "file"; VString "users/store.go:7";
               VString "function"; VString "load";
               VString "caller"; VString "main.go:10";
               VString "function"; VString "main";
               VString "endpoint"; VString "svc_unset";
               VString "msg"; VString "hello"])].
Proof.
  eexists. split.
  - rewrite (WithContext_record Sprintf_example (fctx.ctx_GetUser fctx.st0)
               [VString "msg"; VString "hello"] _ world_example levels_example
               eq_refl eq_refl eq_refl).
    reflexivity.
  - reflexivity.
Defined.

Lemma WithCustomDepth_resolves_witness :
  (log.Log (levels_Warn (levels_WithCustomDepth Sprintf_example
                           {| internalLogger := Base JSONLogger |} 4
                           [VString "k"; VString "v"]))
     [VString "msg"; VString "slow"] stack_example os_example).2
  = {| stdout := [(JSON, [VString "level"; VLevel "warn";
                          VString "caller"; VString "main.go:10";
                          VString "function"; VString "main";
                          VString "k"; VString "v";
                          VString "msg"; VString "slow"])];
       clock := 1700000000;
       write_fault := write_fault os_example |}.
Proof.
  rewrite (WithCustomDepth_resolves Sprintf_example
             {| internalLogger := Base JSONLogger |} 4
             [VString "k"; VString "v"] [VString "msg"; VString "slow"]
             stack_example os_example _ level.WarnValue).
  - reflexivity.
  - reflexivity.
  - unfold stack.max_int. lia.
  - vm_compute. right. right. left.
Defined.

End logger_more.
